(** * MultiplicationShifts: the multiply-to-shift pass of
      src/MultiplicationShifts/MultiplicationShifts.cpp

    The pass walks every basic block of a function and replaces
    [mul x, C] (C a ConstantInt that is a power of two) by what
    [IRBuilder<>::CreateShl (x, getInt32 (log2 C))] returns, redirects the
    uses of the multiply to that value and erases the multiply.

    The LLVM object model is embedded as follows.
    - an instruction has an identity (its address in LLVM, a number here)
      and a type (an integer bit width); an operand refers to an
      instruction by its identity;
    - a BinaryOperator has exactly two operands, by its class, and LLVM
      gives it the type of its first operand;
    - [IRBuilder<>] uses the default ConstantFolder: when both operands of
      CreateShl are Constants the builder returns the folded Constant and
      inserts no instruction;
    - [run] is the pass in an LLVM compiled without assertions;
      [runChecked] is the pass with the assertions it can meet;
    - the pass manager skips an optional pass on a function that has the
      attribute optnone, and neither pass of the plugin is required. *)

From Stdlib Require Import ZArith Lia Bool.
From stdpp Require Import base list strings.

Local Open Scope Z_scope.

(** ** Data model *)

(** llvm::Constant, as far as the pass can meet it.  [ConstantInt bits val]
    holds an APInt: [val] is the unsigned reading of the bit pattern. *)
Inductive Constant : Type :=
| ConstantInt (bits : Z) (val : Z)
| PoisonValue (bits : Z)
| ConstantOther (bits : Z) (tag : nat)
| ConstantExprShl (c1 c2 : Constant).

Inductive Value : Type :=
| VInst (id : nat)
| VArg (n : nat)
| VConst (c : Constant).

(** Instruction::BinaryOps *)
Inductive BinaryOps : Type :=
| Add | FAdd | Sub | FSub | Mul | FMul | UDiv | SDiv | FDiv
| URem | SRem | FRem | Shl | LShr | AShr | And | Or | Xor.

Inductive Instruction : Type :=
| BinaryOperator (id : nat) (op : BinaryOps) (ty : Z) (lhs rhs : Value)
| OtherInst (id : nat) (opc : nat) (ty : Z) (ops : list Value).

Abbreviation BasicBlock := (list Instruction).
Abbreviation Function := (list (list Instruction)).

#[global] Instance Constant_eq_dec : EqDecision Constant.
Proof. solve_decision. Defined.
#[global] Instance Value_eq_dec : EqDecision Value.
Proof. solve_decision. Defined.
#[global] Instance BinaryOps_eq_dec : EqDecision BinaryOps.
Proof. solve_decision. Defined.
#[global] Instance Instruction_eq_dec : EqDecision Instruction.
Proof. solve_decision. Defined.

Definition iid (I : Instruction) : nat :=
  match I with
  | BinaryOperator id _ _ _ _ => id
  | OtherInst id _ _ _ => id
  end.

Definition operands (I : Instruction) : list Value :=
  match I with
  | BinaryOperator _ _ _ lhs rhs => [lhs; rhs]
  | OtherInst _ _ _ ops => ops
  end.

(** User::getNumOperands *)
Definition getNumOperands (I : Instruction) : nat := length (operands I).

Definition instType (I : Instruction) : Z :=
  match I with
  | BinaryOperator _ _ ty _ _ => ty
  | OtherInst _ _ ty _ => ty
  end.

Fixpoint constType (c : Constant) : Z :=
  match c with
  | ConstantInt bits _ => bits
  | PoisonValue bits => bits
  | ConstantOther bits _ => bits
  | ConstantExprShl c1 _ => constType c1
  end.

(** isa<Constant> *)
Definition isConstant (v : Value) : bool :=
  match v with VConst _ => true | _ => false end.

(** ** APInt queries *)

(** APInt::isPowerOf2: exactly one bit set. *)
Definition isPowerOf2 (val : Z) : bool :=
  (0 <? val) && (Z.land val (val - 1) =? 0).

(** APInt::exactLogBase2: the logarithm of a power of two, -1 otherwise. *)
Definition exactLogBase2 (val : Z) : Z :=
  if isPowerOf2 val then Z.log2 val else -1.

(** IRBuilderBase::getInt32 takes a uint32_t. *)
Definition getInt32 (c : Z) : Constant := ConstantInt 32 (c mod 2 ^ 32).

(** ** The builder *)

(** ConstantFolder::FoldNoWrapBinOp for Shl on two Constants
    (ConstantExpr::get, which first tries ConstantFoldBinaryInstruction):
    poison propagates, two ConstantInts are shifted in the width of the
    first (an oversized shift is poison), anything else becomes a shl
    constant expression. *)
Definition ConstantFoldShl (C1 C2 : Constant) : Constant :=
  match C1, C2 with
  | PoisonValue b, _ => PoisonValue b
  | ConstantInt b1 v1, ConstantInt _ v2 =>
      if v2 <? b1 then ConstantInt b1 ((v1 * 2 ^ v2) mod 2 ^ b1)
      else PoisonValue b1
  | _, _ => ConstantExprShl C1 C2
  end.

(** ** Uses *)

Definition substValue (old : nat) (new : Value) (v : Value) : Value :=
  match v with
  | VInst id => if decide (id = old) then new else v
  | _ => v
  end.

Definition mapOperands (f : Value -> Value) (I : Instruction) : Instruction :=
  match I with
  | BinaryOperator id op ty lhs rhs => BinaryOperator id op ty (f lhs) (f rhs)
  | OtherInst id opc ty ops => OtherInst id opc ty (map f ops)
  end.

Definition mapFunction (f : Instruction -> Instruction) (F : Function)
  : Function := map (map f) F.

(** Value::replaceAllUsesWith, for the result of instruction [old]: every
    operand of every instruction of the function that refers to it is set
    to [new]. *)
Definition replaceAllUsesWith (old : nat) (new : Value) (F : Function)
  : Function := mapFunction (mapOperands (substValue old new)) F.

(** ** Identities for new instructions *)

Definition valueId (v : Value) : nat :=
  match v with VInst id => id | _ => 0%nat end.

Definition instMaxId (I : Instruction) : nat :=
  foldr Nat.max (iid I) (map valueId (operands I)).

Definition maxId (F : Function) : nat :=
  foldr Nat.max 0%nat (map instMaxId (concat F)).

(** The first identity that the function does not use. *)
Definition fresh (F : Function) : nat := S (maxId F).

(** ** Positions *)

Definition getBlock (F : Function) (b : nat) : BasicBlock :=
  default [] (F !! b).

Definition getInst (F : Function) (b i : nat) : option Instruction :=
  getBlock F b !! i.

(** insert [I] before position [i] of block [b] *)
Definition insertBefore (b i : nat) (I : Instruction) (F : Function)
  : Function :=
  alter (fun blk => take i blk ++ I :: drop i blk) b F.

(** Instruction::eraseFromParent for the instruction at position [i] of
    block [b] *)
Definition eraseFromParent (b i : nat) (F : Function) : Function :=
  alter (delete i) b F.

(** ** The pass *)

(** The test of lines 26-31 of MultiplicationShifts.cpp: a BinaryOperator
    with opcode Mul whose operand 1 is a ConstantInt that is a power of
    two. *)
Definition isRewriteSite (I : Instruction) : bool :=
  match I with
  | BinaryOperator _ Mul _ _ (VConst (ConstantInt _ c)) => isPowerOf2 c
  | _ => false
  end.

(** The state of the pass: the function, the static flag [Modified], and
    the identity the next created instruction receives (the allocator:
    an identity is never given twice). *)
Record PassState : Type :=
  mkState { fn : Function; Modified : bool; nextId : nat }.

(** One iteration of the inner loop with the cursor at position [i] of
    block [b]; returns the state and the position of the cursor after it.
    The cursor has been advanced past the instruction before the body
    runs, so it stays on the instruction that followed the multiply.
    BinaryOperator::Create types the shl by its first operand, which is
    the type [ty] of the multiply it is the first operand of. *)
Definition visit (b i : nat) (st : PassState) : PassState * nat :=
  match getInst (fn st) b i with
  | Some (BinaryOperator m Mul ty lhs (VConst (ConstantInt w c))) =>
      if isPowerOf2 c then
        let ShiftAmount := getInt32 (exactLogBase2 c) in
        match lhs with
        | VConst LC =>
            let NewMul := VConst (ConstantFoldShl LC ShiftAmount) in
            let F1 := replaceAllUsesWith m NewMul (fn st) in
            let F2 := eraseFromParent b i F1 in
            (mkState F2 true (nextId st), i)
        | _ =>
            let n := nextId st in
            let NewMul := VInst n in
            let F0 := insertBefore b i
                        (BinaryOperator n Shl ty lhs (VConst ShiftAmount))
                        (fn st) in
            let F1 := replaceAllUsesWith m NewMul F0 in
            let F2 := eraseFromParent b (S i) F1 in
            (mkState F2 true (S n), S i)
        end
      else (st, S i)
  | _ => (st, S i)
  end.

(** The inner loop [for (I = BB.begin(); I != E; )] from position [i],
    with [rem] instructions left between the cursor and the end. *)
Fixpoint runBlock (rem : nat) (b i : nat) (st : PassState) : PassState :=
  match rem with
  | O => st
  | S rem' => let '(st', i') := visit b i st in runBlock rem' b i' st'
  end.

(** The outer loop [for (auto &BB : F)] from block [b], with [nb] blocks
    left. *)
Fixpoint runBlocks (nb : nat) (b : nat) (st : PassState) : PassState :=
  match nb with
  | O => st
  | S nb' =>
      runBlocks nb' (S b) (runBlock (length (getBlock (fn st) b)) b 0%nat st)
  end.

(** MultiplicationShifts::run *)
Definition run (F : Function) : PassState :=
  runBlocks (length F) 0%nat (mkState F false (fresh F)).

(** ** Examples of the tutorial *)

Definition i32 : Z := 32.
Definition CI (bits val : Z) : Value := VConst (ConstantInt bits val).

(** { %0 = mul i32 %x, 4 ; store-like use of %0 } *)
Definition tutorialBody : Function :=
  [[ BinaryOperator 0 Mul i32 (VArg 0) (CI i32 4);
     OtherInst 1 0 0 [VInst 0] ]].

(** ** The pieces of one rewrite *)

(** the redirection of the uses of [m] to [new], on one instruction *)
Definition redirect (m : nat) (new : Value) : Instruction -> Instruction :=
  mapOperands (substValue m new).

(** the instruction CreateShl inserts for the multiply [mul lhs, c] *)
Definition newShl (n : nat) (ty : Z) (lhs : Value) (c : Z) : Instruction :=
  BinaryOperator n Shl ty lhs (VConst (getInt32 (exactLogBase2 c))).

(** the value CreateShl returns *)
Definition CreateShl_result (n : nat) (lhs : Value) (c : Z) : Value :=
  match lhs with
  | VConst LC => VConst (ConstantFoldShl LC (getInt32 (exactLogBase2 c)))
  | _ => VInst n
  end.

(** ** Vocabulary of the statements *)

(** a BinaryOperator with opcode Mul *)
Definition isMultiply (J : Instruction) : bool :=
  match J with BinaryOperator _ Mul _ _ _ => true | _ => false end.

(** the function holds an instruction of the rewrite class *)
Definition hasSite (F : Function) : bool := existsb (existsb isRewriteSite) F.

Fixpoint countIf {A : Type} (p : A -> bool) (l : list A) : nat :=
  match l with
  | [] => 0
  | x :: l' => (if p x then 1 else 0) + countIf p l'
  end.

Definition sumBlocks (h : BasicBlock -> nat) (F : Function) : nat :=
  foldr (fun blk acc => h blk + acc)%nat 0%nat F.

(** number of multiplies, and of instructions, of a function *)
Definition mulCount (F : Function) : nat := sumBlocks (countIf isMultiply) F.
Definition instCount (F : Function) : nat := sumBlocks length F.

(** position (b', i') comes before the cursor (b, i) in layout order *)
Definition before (b i b' i' : nat) : Prop :=
  (b' < b)%nat \/ (b' = b /\ (i' < i)%nat).

#[global] Instance before_dec (b i b' i' : nat) : Decision (before b i b' i').
Proof. unfold before. apply _. Defined.

(** a multiply of the rewrite class whose first operand is a Constant:
    the builder folds its shift *)
Definition isFoldSite (J : Instruction) : bool :=
  match J with
  | BinaryOperator _ Mul _ (VConst _) (VConst (ConstantInt _ c)) => isPowerOf2 c
  | _ => false
  end.

Definition noFoldSite (F : Function) : bool :=
  forallb (forallb (fun J => negb (isFoldSite J))) F.

(** every instruction is a Value of its own *)
Definition uniqueIds (F : Function) : bool :=
  bool_decide (NoDup (map iid (concat F))).

(** ** The function the pass computes when the builder never folds *)

Definition renameValue (s : nat -> nat) (v : Value) : Value :=
  match v with VInst r => VInst (s r) | _ => v end.

Definition renameInst (s : nat -> nat) : Instruction -> Instruction :=
  mapOperands (renameValue s).

(** [s] sends the identity of every rewritten multiply to the identity of
    the shl that replaces it: a multiply of the rewrite class becomes that
    shl, any other instruction keeps its place with its uses redirected. *)
Definition rewriteWith (s : nat -> nat) (J : Instruction) : Instruction :=
  match J with
  | BinaryOperator m Mul ty lhs (VConst (ConstantInt w c)) =>
      if isPowerOf2 c
      then BinaryOperator (s m) Shl ty (renameValue s lhs)
             (VConst (getInt32 (exactLogBase2 c)))
      else renameInst s J
  | _ => renameInst s J
  end.

(** the redirection of one replaceAllUsesWith, as a map on identities *)
Definition swapId (m n : nat) (r : nat) : nat :=
  if decide (r = m) then n else r.

(** The state of the pass when the cursor is at position [i] of block
    [b], for a function [F] in which the builder never folds: what has
    been visited is rewritten, the rest has its uses redirected. *)
Definition renamingInv (F : Function) (b i : nat) (st : PassState) : Prop :=
  exists s : nat -> nat,
    (forall r, s r = r \/ (fresh F <= s r)%nat) /\
    (forall b' i' J, getInst F b' i' = Some J ->
       getInst (fn st) b' i' =
         Some (if decide (before b i b' i') then rewriteWith s J
               else renameInst s J)) /\
    (forall b', length (getBlock (fn st) b') = length (getBlock F b')) /\
    (fresh F <= nextId st)%nat /\
    (forall r, s r <> r ->
       exists b' i' J, getInst F b' i' = Some J /\ iid J = r /\
                       isRewriteSite J = true /\ before b i b' i') /\
    (forall b' i' J, getInst F b' i' = Some J -> isRewriteSite J = true ->
       before b i b' i' -> s (iid J) <> iid J) /\
    (forall r, s r <> r -> (s r < nextId st)%nat) /\
    (forall r1 r2, s r1 <> r1 -> s r2 <> r2 -> s r1 = s r2 -> r1 = r2).

(** ** Example functions *)

(** { %0 = mul i32 3, 4 ; use of %0 }: both operands are constants *)
Definition constMulBody : Function :=
  [[ BinaryOperator 0 Mul i32 (CI i32 3) (CI i32 4);
     OtherInst 1 0 0 [VInst 0] ]].

(** { %0 = mul i32 1, 4 ; %1 = mul i32 %x, %0 ; use of %1 } *)
Definition chainBody : Function :=
  [[ BinaryOperator 0 Mul i32 (CI i32 1) (CI i32 4);
     BinaryOperator 1 Mul i32 (VArg 0) (VInst 0);
     OtherInst 2 0 0 [VInst 1] ]].

(** entry: br B2 ; B1: %1 = mul i32 %x, %0 ; ret %1 ;
    B2: %0 = mul i32 1, 4 ; br B1   (blocks in this layout order) *)
Definition layoutBody : Function :=
  [ [ OtherInst 10 1 0 [] ];
    [ BinaryOperator 1 Mul i32 (VArg 0) (VInst 0); OtherInst 11 2 0 [VInst 1] ];
    [ BinaryOperator 0 Mul i32 (CI i32 1) (CI i32 4); OtherInst 12 1 0 [] ] ].

(** { %0 = mul i32 5, 1 ; use of %0 } *)
Definition mulOneConstBody : Function :=
  [[ BinaryOperator 0 Mul i32 (CI i32 5) (CI i32 1);
     OtherInst 1 0 0 [VInst 0] ]].

(** { %0 = mul i32 %x, 1 ; use of %0 } *)
Definition mulOneBody : Function :=
  [[ BinaryOperator 0 Mul i32 (VArg 0) (CI i32 1);
     OtherInst 1 0 0 [VInst 0] ]].

(** { %0 = mul i64 %x, 8 ; use of %0 } *)
Definition wideBody : Function :=
  [[ BinaryOperator 0 Mul 64 (VArg 0) (CI 64 8);
     OtherInst 1 0 0 [VInst 0] ]].

(** { %0 = mul i32 %x, 3 ; %1 = mul i32 %x, %y ; %2 = add i32 %0, %1 } *)
Definition noMatchBody : Function :=
  [[ BinaryOperator 0 Mul i32 (VArg 0) (CI i32 3);
     BinaryOperator 1 Mul i32 (VArg 0) (VArg 1);
     BinaryOperator 2 Add i32 (VInst 0) (VInst 1) ]].

(** two blocks, a multiply of the rewrite class in each *)
Definition twoSiteBody : Function :=
  [ [ BinaryOperator 0 Mul i32 (VArg 0) (CI i32 4);
      BinaryOperator 1 Add i32 (VInst 0) (CI i32 1) ];
    [ BinaryOperator 2 Mul i32 (VInst 1) (CI i32 16);
      OtherInst 3 0 0 [VInst 2; VInst 0] ] ].

(** ** References *)

(** the function holds an instruction with identity [r] *)
Definition definedIn (F : Function) (r : nat) : bool :=
  existsb (fun J => Nat.eqb (iid J) r) (concat F).

(** every operand that refers to an instruction refers to an instruction
    that is in the function *)
Definition closed (F : Function) : bool :=
  forallb (fun J =>
    forallb (fun v => match v with VInst r => definedIn F r | _ => true end)
      (operands J)) (concat F).

(** ** Typing *)

(** a Constant operand of an instruction of type [ty] has that type, and
    a ConstantInt holds a value of that width *)
Definition typedOperand (ty : Z) (v : Value) : bool :=
  match v with
  | VConst c =>
      (constType c =? ty) &&
      match c with
      | ConstantInt _ x => (0 <=? x) && (x <? 2 ^ ty)
      | _ => true
      end
  | _ => true
  end.

(** A multiply of the rewrite class is an i32 multiply by a constant of
    that type.  The shift amount the pass builds is an i32 constant
    (IRBuilderBase::getInt32), so these are the multiplies for which the
    shl has two operands of one type. *)
Definition i32Site (J : Instruction) : bool :=
  match J with
  | BinaryOperator _ Mul ty _ (VConst (ConstantInt w c)) =>
      negb (isPowerOf2 c) || ((ty =? 32) && (w =? 32) && (c <? 2 ^ 32))
  | _ => true
  end.

Definition i32Sites (F : Function) : bool := forallb (forallb i32Site) F.

(** ** The pass under LLVM's assertions *)

(** What stops the pass when the assertions of LLVM are compiled in.
    [MalformedOperand]: User::getOperand is asked for an operand the
    instruction does not have ("getOperand() out of range!").
    [OperandTypesDiffer]: a binary operator or a binary constant
    expression is created from operands of two types
    (BinaryOperator::Create, ConstantExpr::get), or a value is replaced
    by a value of another type (Value::replaceAllUsesWith). *)
Inductive Failure : Type := MalformedOperand | OperandTypesDiffer.

Inductive Checked (A : Type) : Type :=
| Done (a : A)
| Failed (e : Failure).

Arguments Done {A} a.
Arguments Failed {A} e.

(** User::getOperand *)
Definition getOperand (J : Instruction) (k : nat) : Checked Value :=
  match operands J !! k with
  | Some v => Done v
  | None => Failed MalformedOperand
  end.

(** The type of an operand of a binary operator of type [ty]: a Constant
    carries its type; an instruction or an argument has the type of the
    operator that uses it. *)
Definition typeOf (ty : Z) (v : Value) : Z :=
  match v with
  | VConst c => constType c
  | _ => ty
  end.

(** One iteration of the loop body, assertions on.  The shl, or the
    constant expression, is created from operand 0 and an i32 constant,
    and has the type of operand 0; it then replaces the multiply, of type
    [ty]. *)
Definition visitChecked (b i : nat) (st : PassState)
  : Checked (PassState * nat) :=
  match getInst (fn st) b i with
  | Some (BinaryOperator m Mul ty lhs rhs) =>
      let Mu := BinaryOperator m Mul ty lhs rhs in
      match getOperand Mu 1 with
      | Failed e => Failed e
      | Done (VConst (ConstantInt w c)) =>
          if isPowerOf2 c then
            match getOperand Mu 0 with
            | Failed e => Failed e
            | Done op0 =>
                if (typeOf ty op0 =? 32) && (typeOf ty op0 =? ty)
                then Done (visit b i st)
                else Failed OperandTypesDiffer
            end
          else Done (visit b i st)
      | Done _ => Done (visit b i st)
      end
  | _ => Done (visit b i st)
  end.

Fixpoint runBlockChecked (rem : nat) (b i : nat) (st : PassState)
  : Checked PassState :=
  match rem with
  | O => Done st
  | S rem' =>
      match visitChecked b i st with
      | Done (st', i') => runBlockChecked rem' b i' st'
      | Failed e => Failed e
      end
  end.

Fixpoint runBlocksChecked (nb : nat) (b : nat) (st : PassState)
  : Checked PassState :=
  match nb with
  | O => Done st
  | S nb' =>
      match runBlockChecked (length (getBlock (fn st) b)) b 0%nat st with
      | Done st' => runBlocksChecked nb' (S b) st'
      | Failed e => Failed e
      end
  end.

(** MultiplicationShifts::run, assertions on *)
Definition runChecked (F : Function) : Checked PassState :=
  runBlocksChecked (length F) 0%nat (mkState F false (fresh F)).

(** a multiply is an i32 multiply, and so is its first operand when that
    is a Constant *)
Definition i32Mul (J : Instruction) : bool :=
  match J with
  | BinaryOperator _ Mul ty lhs _ => (ty =? 32) && (typeOf ty lhs =? 32)
  | _ => true
  end.

Definition i32Muls (F : Function) : bool := forallb i32Mul (concat F).

(** ** Values of a function *)

(** Fixed-width integer arithmetic: a value is an integer, [None] is
    poison.  A multiply wraps modulo 2^ty; a shift by k < ty is a
    multiplication by 2^k modulo 2^ty, a longer shift is poison. *)
Definition mulSem (ty : Z) (x y : option Z) : option Z :=
  match x, y with
  | Some a, Some c => Some ((a * c) mod 2 ^ ty)
  | _, _ => None
  end.

Definition shlSem (ty : Z) (x y : option Z) : option Z :=
  match x, y with
  | Some a, Some k =>
      if (0 <=? k) && (k <? ty) then Some ((a * 2 ^ k) mod 2 ^ ty) else None
  | _, _ => None
  end.

(** The multiply with the flags nuw and nsw: poison when the unsigned,
    or the signed, product does not fit the type, the value of the
    multiply without flags when it does.  The embedding of the pass does
    not hold the flags: the pass does not read them, and CreateShl is
    called without them. *)
Definition signedValue (ty x : Z) : Z :=
  if x <? 2 ^ (ty - 1) then x else x - 2 ^ ty.

Definition mulNoWrap (nuw nsw : bool) (ty : Z) (x y : option Z) : option Z :=
  match x, y with
  | Some a, Some c =>
      let p := signedValue ty a * signedValue ty c in
      if (nuw && negb (a * c <? 2 ^ ty)) ||
         (nsw && negb ((- 2 ^ (ty - 1) <=? p) && (p <? 2 ^ (ty - 1))))
      then None
      else Some ((a * c) mod 2 ^ ty)
  | _, _ => None
  end.

Section Semantics.

(** the inputs of the function, the constants the folder cannot
    evaluate, and the instructions the pass does not look at *)
Variable argVal : nat -> option Z.
Variable constVal : Z -> nat -> option Z.
Variable binSem : BinaryOps -> Z -> option Z -> option Z -> option Z.
Variable otherSem : nat -> Z -> list (option Z) -> option Z -> bool.

Definition evalBin (op : BinaryOps) (ty : Z) (x y : option Z) : option Z :=
  match op with
  | Mul => mulSem ty x y
  | Shl => shlSem ty x y
  | _ => binSem op ty x y
  end.

Fixpoint evalConst (c : Constant) : option Z :=
  match c with
  | ConstantInt _ v => Some v
  | PoisonValue _ => None
  | ConstantOther bits tag => constVal bits tag
  | ConstantExprShl c1 c2 => shlSem (constType c1) (evalConst c1) (evalConst c2)
  end.

(** [rho] gives the value of every instruction *)
Definition evalValue (rho : nat -> option Z) (v : Value) : option Z :=
  match v with
  | VInst r => rho r
  | VArg a => argVal a
  | VConst c => evalConst c
  end.

(** The value of the instruction is the one its operands determine.  A
    binary operator has a value only if its operands have its type
    (BinaryOperator::AssertOK, Verifier::visitBinaryOperator): an
    instruction such as [shl i64 %x, i32 3] has none. *)
Definition satisfies (rho : nat -> option Z) (J : Instruction) : Prop :=
  match J with
  | BinaryOperator id op ty lhs rhs =>
      typedOperand ty lhs = true /\ typedOperand ty rhs = true /\
      rho id = evalBin op ty (evalValue rho lhs) (evalValue rho rhs)
  | OtherInst id opc ty ops =>
      otherSem opc ty (map (evalValue rho) ops) (rho id) = true
  end.

(** [rho] is an evaluation of the function *)
Definition models (rho : nat -> option Z) (F : Function) : Prop :=
  forall J, J ∈ concat F -> satisfies rho J.

End Semantics.

(** The values of the rewritten function, from those of the input: the
    instruction with identity [s r] takes the value [rho] gives to [r],
    for [r] among the first [n] identities. *)
Definition transport (s : nat -> nat) (n : nat) (rho : nat -> option Z)
  : nat -> option Z :=
  fun t =>
    match find (fun r => Nat.eqb (s r) t) (seq 0 n) with
    | Some r => rho r
    | None => None
    end.

(** ** An evaluation of the tutorial's example: %x = 3 *)

Definition exArg : nat -> option Z := fun _ => Some 3.
Definition exConst : Z -> nat -> option Z := fun _ _ => None.
Definition exBin : BinaryOps -> Z -> option Z -> option Z -> option Z :=
  fun _ _ _ _ => None.
Definition exOther : nat -> Z -> list (option Z) -> option Z -> bool :=
  fun _ _ _ _ => true.
Definition exRho : nat -> option Z :=
  fun r => if Nat.eqb r 0 then Some 12 else None.

(** an evaluation of { %0 = mul i64 %x, 8 ; use of %0 } for %x = 3 *)
Definition exRhoWide : nat -> option Z :=
  fun r => if Nat.eqb r 0 then Some 24 else None.

(** ** The loop as written *)

(** [for (auto I = BB.begin(), E = BB.end(); I != E; )]: the loop tests
    the cursor against the end of the block before every iteration.
    [None] when [fuel] iterations were not enough to reach the end. *)
Fixpoint innerLoop (fuel : nat) (b i : nat) (st : PassState)
  : option PassState :=
  if decide (i < length (getBlock (fn st) b))%nat
  then match fuel with
       | O => None
       | S fuel' =>
           let '(st', i') := visit b i st in innerLoop fuel' b i' st'
       end
  else Some st.

(** ** Shapes *)

(** [J'] is [J] with some of its uses of instructions redirected:
    identity, opcode, type and number of operands are those of [J], and
    an operand that is an argument or a constant in [J] is the same in
    [J']. *)
Definition redirected (J J' : Instruction) : Prop :=
  exists f : Value -> Value,
    (forall a, f (VArg a) = VArg a) /\
    (forall c, f (VConst c) = VConst c) /\
    J' = mapOperands f J.

(** both operands of a BinaryOperator that are Constants have the type
    of the instruction *)
Definition typedBinary (J : Instruction) : bool :=
  match J with
  | BinaryOperator _ _ ty lhs rhs => typedOperand ty lhs && typedOperand ty rhs
  | OtherInst _ _ _ _ => true
  end.

(** ** The printer pass and the pass manager *)

(** PreservedAnalyses: all(), none(), and none() to which the set of all
    the analyses on functions was added (preserveSet<AllAnalysesOn<Function>>) *)
Inductive PreservedAnalyses : Type :=
| PreservedAll
| PreservedNone
| PreservedFunctionSet.

(** PreservedAnalyses::intersect *)
Definition intersect (a b : PreservedAnalyses) : PreservedAnalyses :=
  match a, b with
  | _, PreservedAll => a
  | PreservedAll, _ => b
  | PreservedFunctionSet, PreservedFunctionSet => PreservedFunctionSet
  | _, _ => PreservedNone
  end.

(** PreservedAnalyses::preserveSet<AllAnalysesOn<Function>>: nothing is
    added to all() *)
Definition preserveSet (a : PreservedAnalyses) : PreservedAnalyses :=
  match a with
  | PreservedAll => PreservedAll
  | _ => PreservedFunctionSet
  end.

(** A function as the pass manager sees it: the attribute optnone and
    the basic blocks.  A function without blocks is a declaration
    (GlobalValue::isDeclaration). *)
Record FunctionDef : Type :=
  mkFunctionDef { hasOptNone : bool; blocks : Function }.

Definition isDeclaration (D : FunctionDef) : bool :=
  match blocks D with
  | [] => true
  | _ => false
  end.

(** What the two passes share: the static variable [Modified] of line 14
    and the stream errs(). *)
Record Globals : Type :=
  mkGlobals { ModifiedFlag : bool; errsStream : string }.

Definition newline : string :=
  String (Ascii.Ascii false true false true false false false false)
    EmptyString.

Definition banner : string :=
  "*** MULTIPLICATION SHIFTS PASS EXECUTING ***" +:+ newline.
Definition replacedMessage : string :=
  "Some instruction was replaced." +:+ newline.
Definition unchangedMessage : string := "Nothing changed." +:+ newline.

(** MultiplicationShifts::run as the pass manager sees it: the function is
    rewritten, the static flag holds what the run left in it (the run
    clears it first, whatever it held), and the result tells whether the
    analyses are preserved. *)
Definition MultiplicationShifts_run (F : Function) (g : Globals)
  : Function * PreservedAnalyses * Globals :=
  let st := run F in
  (fn st,
   if Modified st then PreservedNone else PreservedAll,
   mkGlobals (Modified st) (errsStream g)).

(** MultiplicationShiftsPrinter::run *)
Definition MultiplicationShiftsPrinter_run (F : Function) (g : Globals)
  : Function * PreservedAnalyses * Globals :=
  (F, PreservedAll,
   mkGlobals (ModifiedFlag g)
     (errsStream g +:+ banner +:+
      (if ModifiedFlag g then replacedMessage else unchangedMessage))).

Inductive FunctionPass : Type :=
| MultiplicationShiftsPass
| MultiplicationShiftsPrinterPass.

Definition runFunctionPass (p : FunctionPass) (F : Function) (g : Globals)
  : Function * PreservedAnalyses * Globals :=
  match p with
  | MultiplicationShiftsPass => MultiplicationShifts_run F g
  | MultiplicationShiftsPrinterPass => MultiplicationShiftsPrinter_run F g
  end.

(** Neither struct defines isRequired: a pass that only derives from
    PassInfoMixin is optional. *)
Definition isRequired (p : FunctionPass) : bool :=
  match p with
  | MultiplicationShiftsPass => false
  | MultiplicationShiftsPrinterPass => false
  end.

(** PassInstrumentation::runBeforePass with the callbacks that opt and
    clang install (OptNoneInstrumentation::shouldRun): an optional pass
    is not run on a function that has the attribute optnone. *)
Definition runBeforePass (p : FunctionPass) (D : FunctionDef) : bool :=
  isRequired p || negb (hasOptNone D).

(** The loop of PassManager<Function>::run, [PA] being what the passes
    run so far preserve: the passes in the order they were added; a pass
    that the instrumentation refuses is skipped; the result of a pass
    that is run is intersected with [PA]. *)
Fixpoint passLoop (FPM : list FunctionPass) (D : FunctionDef)
    (PA : PreservedAnalyses) (g : Globals)
  : FunctionDef * PreservedAnalyses * Globals :=
  match FPM with
  | [] => (D, PA, g)
  | p :: rest =>
      if runBeforePass p D then
        let '(F1, PassPA, g1) := runFunctionPass p (blocks D) g in
        passLoop rest (mkFunctionDef (hasOptNone D) F1)
          (intersect PA PassPA) g1
      else passLoop rest D PA g
  end.

(** PassManager<Function>::run: the loop from PreservedAnalyses::all(),
    then the set of all the analyses on functions is marked preserved *)
Definition runPasses (FPM : list FunctionPass) (D : FunctionDef) (g : Globals)
  : FunctionDef * PreservedAnalyses * Globals :=
  let '(D', PA, g') := passLoop FPM D PreservedAll g in
  (D', preserveSet PA, g').

(** the callback given to registerPipelineParsingCallback (lines 69-77) *)
Definition pipelineParsingCallback (Name : string) (FPM : list FunctionPass)
  : bool * list FunctionPass :=
  if String.eqb Name "multiplication-shifts"
  then (true, FPM ++ [MultiplicationShiftsPass; MultiplicationShiftsPrinterPass])
  else (false, FPM).

(** the manager built by the callback given to
    registerPipelineStartEPCallback (lines 80-82) *)
Definition pipelineStartManager : list FunctionPass :=
  [] ++ [MultiplicationShiftsPass] ++ [MultiplicationShiftsPrinterPass].

(** ModuleToFunctionPassAdaptor::run: the manager, which is a required
    pass, is run on the functions of the module one after the other;
    a declaration is passed over. *)
Fixpoint runOnModule (FPM : list FunctionPass) (M : list FunctionDef)
    (g : Globals) : list FunctionDef * Globals :=
  match M with
  | [] => ([], g)
  | D :: rest =>
      if isDeclaration D then
        let '(rest', g2) := runOnModule FPM rest g in
        (D :: rest', g2)
      else
        let '(D', _, g1) := runPasses FPM D g in
        let '(rest', g2) := runOnModule FPM rest g1 in
        (D' :: rest', g2)
  end.

(** what the printer writes for one function *)
Definition report (F : Function) : string :=
  banner +:+ (if hasSite F then replacedMessage else unchangedMessage).

(** the function has a body and not the attribute optnone *)
Definition optimised (D : FunctionDef) : bool :=
  negb (isDeclaration D) && negb (hasOptNone D).

(** the function with its body rewritten by the pass, if [optimised] *)
Definition rewritten (D : FunctionDef) : FunctionDef :=
  if optimised D then mkFunctionDef (hasOptNone D) (fn (run (blocks D)))
  else D.

Fixpoint reports (M : list FunctionDef) : string :=
  match M with
  | [] => EmptyString
  | D :: rest =>
      (if optimised D then report (blocks D) else EmptyString) +:+
      reports rest
  end.

(** a module as clang emits it without -disable-O0-optnone: the
    tutorial's function, optnone, and a declaration *)
Definition optnoneModule : list FunctionDef :=
  [ mkFunctionDef true tutorialBody; mkFunctionDef false [] ].

(** the same module emitted with -disable-O0-optnone, and a second
    function without a multiply of the rewrite class *)
Definition tutorialModule : list FunctionDef :=
  [ mkFunctionDef false tutorialBody; mkFunctionDef false [];
    mkFunctionDef false noMatchBody ].

(** ** test_hello.c: findMax *)

(** What a call does: it returns an int, or it reads the array past its
    end (undefined in C), or the fuel given to the loop ran out. *)
Inductive Outcome : Type :=
| Returns (v : Z)
| ReadsOutOfBounds
| OutOfFuel.

(** the loop [for (int i = 1; i < size; i++)] of findMax, from [i] with
    the running maximum [max] *)
Fixpoint findMax_loop (fuel : nat) (arr : list Z) (size i max : Z)
  : Outcome :=
  if i <? size
  then match fuel with
       | O => OutOfFuel
       | S fuel' =>
           match arr !! Z.to_nat i with
           | None => ReadsOutOfBounds
           | Some x =>
               findMax_loop fuel' arr size (i + 1)
                 (if x >? max then x else max)
           end
       end
  else Returns max.

(** findMax: [max = arr[0]] is read before [size] is looked at *)
Definition findMax (fuel : nat) (arr : list Z) (size : Z) : Outcome :=
  match arr !! 0%nat with
  | None => ReadsOutOfBounds
  | Some a0 => findMax_loop fuel arr size 1 a0
  end.

(** ** Positions, blocks and membership *)

Lemma getBlock_lookup (F : Function) (b : nat) (blk : BasicBlock) :
  F !! b = Some blk -> getBlock F b = blk.
Proof. unfold getBlock. by intros ->. Qed.

Lemma getInst_Some_block (F : Function) (b i : nat) (I : Instruction) :
  getInst F b i = Some I -> F !! b = Some (getBlock F b).
Proof.
  unfold getInst, getBlock. destruct (F !! b) as [blk|] eqn:E; simpl; [done|].
  by rewrite lookup_nil.
Qed.

Lemma getInst_lt (F : Function) (b i : nat) (I : Instruction) :
  getInst F b i = Some I -> (b < length F)%nat /\ (i < length (getBlock F b))%nat.
Proof.
  intros H. split.
  - apply getInst_Some_block in H. by apply lookup_lt_Some in H.
  - by apply lookup_lt_Some in H.
Qed.

Lemma getBlock_alter (f : BasicBlock -> BasicBlock) (F : Function) (b b' : nat) :
  getBlock (alter f b F) b' =
    if decide (b = b' /\ (b < length F)%nat) then f (getBlock F b')
    else getBlock F b'.
Proof.
  unfold getBlock. destruct (decide (b = b')) as [<-|Hne].
  - rewrite list_lookup_alter_eq.
    destruct (F !! b) as [blk|] eqn:E; simpl.
    + apply lookup_lt_Some in E. by rewrite decide_True.
    + apply lookup_ge_None in E. rewrite decide_False; [done|lia].
  - rewrite list_lookup_alter_ne by done. rewrite decide_False; [done|tauto].
Qed.

Lemma getBlock_mapFunction (f : Instruction -> Instruction) (F : Function) (b : nat) :
  getBlock (mapFunction f F) b = map f (getBlock F b).
Proof.
  unfold getBlock, mapFunction.
  change (map (map f) F) with (fmap (M:=list) (map f) F).
  rewrite list_lookup_fmap. by destruct (F !! b).
Qed.

Lemma getInst_mapFunction (f : Instruction -> Instruction) (F : Function) (b i : nat) :
  getInst (mapFunction f F) b i = f <$> getInst F b i.
Proof.
  unfold getInst. rewrite getBlock_mapFunction.
  change (map f (getBlock F b)) with (f <$> getBlock F b).
  by rewrite list_lookup_fmap.
Qed.

Lemma length_mapFunction (f : Instruction -> Instruction) (F : Function) :
  length (mapFunction f F) = length F.
Proof. unfold mapFunction. by rewrite length_map. Qed.

Lemma elem_of_function (F : Function) (I : Instruction) :
  I ∈ concat F <-> exists b i, getInst F b i = Some I.
Proof.
  rewrite list_elem_of_In, in_concat. split.
  - intros (blk & Hb & HI). apply list_elem_of_In in Hb, HI.
    apply list_elem_of_lookup in Hb as [b Hb], HI as [i Hi].
    exists b, i. unfold getInst. by rewrite (getBlock_lookup _ _ _ Hb).
  - intros (b & i & H). exists (getBlock F b).
    split; apply list_elem_of_In.
    + apply getInst_Some_block in H. by eapply list_elem_of_lookup_2.
    + by eapply list_elem_of_lookup_2.
Qed.

(** ** What one visit does *)

Lemma erase_after_insert {A B : Type} (f : A -> B) (l : list A) (i : nat) (s : A) :
  (i < length l)%nat ->
  delete (S i) (map f (take i l ++ s :: drop i l)) = <[i := f s]> (map f l).
Proof.
  revert i. induction l as [|x l IH]; intros i Hi; simpl in Hi; [lia|].
  destruct i as [|i]; simpl; [done|].
  f_equal. apply IH. lia.
Qed.

Lemma visit_skip (b i : nat) (st : PassState) :
  match getInst (fn st) b i with
  | Some Inst => isRewriteSite Inst = false
  | None => True
  end ->
  visit b i st = (st, S i).
Proof.
  unfold visit. destruct (getInst (fn st) b i) as [I|]; [|done].
  destruct I as [m op ty lhs rhs|]; [|done].
  destruct op; try done. destruct rhs as [| |[]]; try done.
  simpl. by intros ->.
Qed.

Lemma visit_shl (b i : nat) (st : PassState) m ty lhs w c :
  getInst (fn st) b i = Some (BinaryOperator m Mul ty lhs (VConst (ConstantInt w c))) ->
  isPowerOf2 c = true ->
  isConstant lhs = false ->
  exists F',
    visit b i st = (mkState F' true (S (nextId st)), S i) /\
    length F' = length (fn st) /\
    forall b', getBlock F' b' =
      if decide (b' = b)
      then <[i := redirect m (VInst (nextId st))
                      (newShl (nextId st) ty lhs c)]>
             (map (redirect m (VInst (nextId st))) (getBlock (fn st) b))
      else map (redirect m (VInst (nextId st))) (getBlock (fn st) b').
Proof.
  intros HI Hp Hc. unfold visit. rewrite HI, Hp.
  destruct (getInst_lt _ _ _ _ HI) as [Hb Hi].
  assert (Hv : forall X Y : PassState * nat,
    match lhs with VConst LC => X | _ => Y end = Y)
    by (by destruct lhs).
  eexists. split; [destruct lhs; try done; reflexivity|].
  unfold eraseFromParent, replaceAllUsesWith, insertBefore.
  split.
  - by rewrite length_alter, length_mapFunction, length_alter.
  - intros b'. rewrite getBlock_alter, length_mapFunction, length_alter.
    rewrite getBlock_mapFunction, getBlock_alter.
    destruct (decide (b' = b)) as [->|Hne].
    + rewrite !decide_True by done.
      by apply erase_after_insert.
    + rewrite !decide_False by (intros [? _]; congruence). done.
Qed.

Lemma visit_fold (b i : nat) (st : PassState) m ty LC w c :
  getInst (fn st) b i =
    Some (BinaryOperator m Mul ty (VConst LC) (VConst (ConstantInt w c))) ->
  isPowerOf2 c = true ->
  exists F',
    visit b i st = (mkState F' true (nextId st), i) /\
    length F' = length (fn st) /\
    forall b', getBlock F' b' =
      if decide (b' = b)
      then delete i (map (redirect m (CreateShl_result (nextId st) (VConst LC) c))
                       (getBlock (fn st) b))
      else map (redirect m (CreateShl_result (nextId st) (VConst LC) c))
             (getBlock (fn st) b').
Proof.
  intros HI Hp. unfold visit. rewrite HI, Hp.
  destruct (getInst_lt _ _ _ _ HI) as [Hb Hi].
  eexists. split; [reflexivity|].
  unfold eraseFromParent, replaceAllUsesWith. split.
  - by rewrite length_alter, length_mapFunction.
  - intros b'. rewrite getBlock_alter, length_mapFunction, getBlock_mapFunction.
    destruct (decide (b' = b)) as [->|Hne].
    + by rewrite decide_True.
    + rewrite decide_False by (intros [? _]; congruence). done.
Qed.

Lemma visit_cases (b i : nat) (st : PassState) :
  (visit b i st = (st, S i) /\
   forall J, getInst (fn st) b i = Some J -> isRewriteSite J = false) \/
  (exists m ty lhs w c,
     getInst (fn st) b i =
       Some (BinaryOperator m Mul ty lhs (VConst (ConstantInt w c))) /\
     isPowerOf2 c = true).
Proof.
  destruct (getInst (fn st) b i) as [J|] eqn:E.
  - destruct (isRewriteSite J) eqn:Hs.
    + right. destruct J as [m op ty lhs rhs|]; [|done].
      destruct op; try done. destruct rhs as [| |[]]; try done.
      simpl in Hs. by exists m, ty, lhs, bits, val.
    + left. split; [|by intros ? [= <-]].
      apply visit_skip. by rewrite E.
  - left. split; [|done]. apply visit_skip. by rewrite E.
Qed.

Lemma length_redirect_block m new (blk : BasicBlock) :
  length (map (redirect m new) blk) = length blk.
Proof. apply length_map. Qed.

(** The cursor and the block lengths: one visit consumes exactly one of
    the instructions between the cursor and the end of the block, and
    touches the length of no other block. *)
Lemma visit_cursor (b i : nat) (st : PassState) :
  (i < length (getBlock (fn st) b))%nat ->
  length (fn (visit b i st).1) = length (fn st) /\
  (length (getBlock (fn (visit b i st).1) b) + S i =
     (visit b i st).2 + length (getBlock (fn st) b))%nat /\
  forall b', b' <> b ->
    length (getBlock (fn (visit b i st).1) b') = length (getBlock (fn st) b').
Proof.
  intros Hi. destruct (visit_cases b i st) as [[-> _]|(m & ty & lhs & w & c & HI & Hp)].
  { simpl. repeat split; lia. }
  destruct (isConstant lhs) eqn:Hc.
  - destruct lhs as [| |LC]; try done.
    destruct (visit_fold _ _ _ _ _ _ _ _ HI Hp) as (F' & -> & HL & HB). simpl.
    split; [done|]. split.
    + rewrite HB, decide_True by done.
      rewrite length_delete.
      * rewrite length_map. lia.
      * apply lookup_lt_is_Some. rewrite length_map. lia.
    + intros b' Hne. by rewrite HB, decide_False, length_map.
  - destruct (visit_shl _ _ _ _ _ _ _ _ HI Hp Hc) as (F' & -> & HL & HB). simpl.
    split; [done|]. split.
    + rewrite HB, decide_True by done.
      rewrite length_insert, length_map. lia.
    + intros b' Hne. by rewrite HB, decide_False, length_map.
Qed.

(** ** Loop invariants *)

Lemma runBlock_ind (Q : nat -> PassState -> Prop) (b : nat) :
  (forall i st, (i < length (getBlock (fn st) b))%nat -> Q i st ->
     Q (visit b i st).2 (visit b i st).1) ->
  forall rem i st,
    (i + rem = length (getBlock (fn st) b))%nat -> Q i st ->
    Q (length (getBlock (fn (runBlock rem b i st)) b)) (runBlock rem b i st).
Proof.
  intros Hstep. induction rem as [|rem IH]; intros i st Hlen HQ; simpl.
  - by replace (length (getBlock (fn st) b)) with i by lia.
  - destruct (visit b i st) as [st' i'] eqn:E.
    assert (Hi : (i < length (getBlock (fn st) b))%nat) by lia.
    pose proof (visit_cursor b i st Hi) as (_ & Hc & _).
    specialize (Hstep i st Hi HQ). rewrite E in Hstep, Hc. simpl in *.
    apply IH; [lia|done].
Qed.

Lemma run_ind (Q : nat -> nat -> PassState -> Prop) (F : Function) :
  Q 0%nat 0%nat (mkState F false (fresh F)) ->
  (forall b i st, length (fn st) = length F -> (b < length F)%nat ->
     (i < length (getBlock (fn st) b))%nat ->
     Q b i st -> Q b (visit b i st).2 (visit b i st).1) ->
  (forall b st, length (fn st) = length F -> (b < length F)%nat ->
     Q b (length (getBlock (fn st) b)) st -> Q (S b) 0%nat st) ->
  Q (length F) 0%nat (run F) /\ length (fn (run F)) = length F.
Proof.
  intros H0 Hstep Hnext. unfold run.
  assert (G : forall nb b st, (b + nb = length F)%nat ->
            length (fn st) = length F -> Q b 0%nat st ->
            Q (length F) 0%nat (runBlocks nb b st) /\
            length (fn (runBlocks nb b st)) = length F).
  { induction nb as [|nb IH]; intros b st Hb HL HQ; simpl.
    - split; [|done]. by replace (length F) with b by lia.
    - pose proof (runBlock_ind
        (fun i st => length (fn st) = length F /\ Q b i st) b) as HB.
      destruct (HB) with (rem := length (getBlock (fn st) b)) (i := 0%nat)
        (st := st) as [HL' HQ']; [|done|done|].
      { intros i st0 Hi [HL0 HQ0]. split.
        - pose proof (visit_cursor b i st0 Hi) as (-> & _). done.
        - apply Hstep; [done|lia|done|done]. }
      apply IH; [lia|done|]. apply Hnext; [done|lia|done]. }
  apply (G (length F) 0%nat); done.
Qed.

(** An invariant that does not look at the cursor. *)
Lemma run_invariant (P : PassState -> Prop) (F : Function) :
  P (mkState F false (fresh F)) ->
  (forall b i st, P st -> P (visit b i st).1) ->
  P (run F).
Proof.
  intros H0 Hstep.
  by destruct (run_ind (fun _ _ st => P st) F) as [H _]; auto.
Qed.

(** ** Counting *)

Lemma getBlock_cons (blk : BasicBlock) (F : Function) (b : nat) :
  getBlock (blk :: F) (S b) = getBlock F b.
Proof. done. Qed.

Lemma getBlock_cons' (blk : BasicBlock) (F : Function) (b i : nat) :
  getInst (blk :: F) (S b) i = getInst F b i.
Proof. done. Qed.

Lemma sumBlocks_change (h : BasicBlock -> nat) (F F' : Function) (b : nat) :
  length F' = length F -> (b < length F)%nat ->
  (forall b', b' <> b -> h (getBlock F' b') = h (getBlock F b')) ->
  (sumBlocks h F' + h (getBlock F b) = sumBlocks h F + h (getBlock F' b))%nat.
Proof.
  revert F' b. induction F as [|blk F IH]; intros [|blk' F'] b HL Hb Hne;
    simpl in *; try lia.
  destruct b as [|b].
  - assert (sumBlocks h F' = sumBlocks h F); [|unfold getBlock; simpl; lia].
    clear IH Hb. revert F' HL Hne. induction F as [|x F IH]; intros [|x' F'] HL Hne;
      simpl in *; try lia.
    pose proof (Hne 1%nat) as H1. unfold getBlock in H1. simpl in H1.
    rewrite H1 by lia. f_equal. apply IH; [lia|].
    intros [|b'] Hb'; [lia|].
    specialize (Hne (S (S b'))). rewrite !getBlock_cons in Hne.
    destruct b'; rewrite !getBlock_cons; apply Hne; lia.
  - rewrite !getBlock_cons.
    pose proof (Hne 0%nat) as H0. unfold getBlock in H0. simpl in H0.
    rewrite H0 by lia.
    specialize (IH F' b). rewrite <- !Nat.add_assoc. f_equal.
    apply IH; [lia|lia|].
    intros b' Hb'. specialize (Hne (S b')). rewrite !getBlock_cons in Hne.
    apply Hne. lia.
Qed.

Lemma countIf_map {A : Type} (p : A -> bool) (g : A -> A) (l : list A) :
  (forall x, p (g x) = p x) -> countIf p (map g l) = countIf p l.
Proof. intros H. induction l; simpl; [done|]. by rewrite H, IHl. Qed.

Lemma countIf_insert {A : Type} (p : A -> bool) (l : list A) (i : nat) (x y : A) :
  l !! i = Some x ->
  (countIf p (<[i := y]> l) + (if p x then 1 else 0)
   = countIf p l + (if p y then 1 else 0))%nat.
Proof.
  revert i. induction l as [|z l IH]; intros [|i] H; simpl in *; try done.
  - injection H as ->. lia.
  - specialize (IH i H). lia.
Qed.

Lemma countIf_delete {A : Type} (p : A -> bool) (l : list A) (i : nat) (x : A) :
  l !! i = Some x ->
  (countIf p (delete i l) + (if p x then 1 else 0) = countIf p l)%nat.
Proof.
  revert i. induction l as [|z l IH]; intros [|i] H; simpl in *; try done.
  - injection H as ->. lia.
  - specialize (IH i H). lia.
Qed.

Lemma isMultiply_redirect m new J : isMultiply (redirect m new J) = isMultiply J.
Proof. by destruct J. Qed.

(** Every rewrite removes exactly one multiply from the function. *)
Lemma visit_mulCount (b i : nat) (st : PassState) :
  (visit b i st = (st, S i) /\
   forall J, getInst (fn st) b i = Some J -> isRewriteSite J = false) \/
  ((exists J, getInst (fn st) b i = Some J /\ isRewriteSite J = true) /\
   Modified (visit b i st).1 = true /\
   S (mulCount (fn (visit b i st).1)) = mulCount (fn st)).
Proof.
  destruct (visit_cases b i st) as [[-> ?]|(m & ty & lhs & w & c & HI & Hp)];
    [by left|right].
  split; [by eexists; split; [exact HI|]|].
  destruct (getInst_lt _ _ _ _ HI) as [Hb Hi].
  set (Mu := BinaryOperator m Mul ty lhs (VConst (ConstantInt w c))) in *.
  destruct (isConstant lhs) eqn:Hc.
  - destruct lhs as [| |LC]; try done.
    destruct (visit_fold _ _ _ _ _ _ _ _ HI Hp) as (F' & -> & HL & HB). simpl.
    split; [done|]. unfold mulCount.
    pose proof (sumBlocks_change (countIf isMultiply) (fn st) F' b HL Hb) as HS.
    rewrite (HB b), decide_True in HS by done.
    pose proof (countIf_delete isMultiply
      (map (redirect m (CreateShl_result (nextId st) (VConst LC) c))
         (getBlock (fn st) b)) i
      (redirect m (CreateShl_result (nextId st) (VConst LC) c) Mu)) as HD.
    rewrite countIf_map in HD by apply isMultiply_redirect.
    lapply HD; [clear HD; intros HD|].
    2:{ change (map ?f ?l) with (f <$> l). rewrite list_lookup_fmap.
        unfold getInst in HI. by rewrite HI. }
    lapply HS; [clear HS; intros HS|].
    2:{ intros b' Hne. rewrite HB, decide_False by done.
        apply countIf_map, isMultiply_redirect. }
    subst Mu. simpl in HD, HS. lia.
  - destruct (visit_shl _ _ _ _ _ _ _ _ HI Hp Hc) as (F' & -> & HL & HB). simpl.
    split; [done|]. unfold mulCount.
    pose proof (sumBlocks_change (countIf isMultiply) (fn st) F' b HL Hb) as HS.
    rewrite (HB b), decide_True in HS by done.
    pose proof (countIf_insert isMultiply
      (map (redirect m (VInst (nextId st))) (getBlock (fn st) b)) i
      (redirect m (VInst (nextId st)) Mu)
      (redirect m (VInst (nextId st)) (newShl (nextId st) ty lhs c))) as HD.
    rewrite countIf_map in HD by apply isMultiply_redirect.
    lapply HD; [clear HD; intros HD|].
    2:{ change (map ?f ?l) with (f <$> l). rewrite list_lookup_fmap.
        unfold getInst in HI. by rewrite HI. }
    lapply HS; [clear HS; intros HS|].
    2:{ intros b' Hne. rewrite HB, decide_False by done.
        apply countIf_map, isMultiply_redirect. }
    subst Mu. simpl in HD, HS. lia.
Qed.

(** ** The modification flag *)

Lemma hasSite_spec (F : Function) :
  hasSite F = true <->
  exists b i J, getInst F b i = Some J /\ isRewriteSite J = true.
Proof.
  unfold hasSite. rewrite existsb_exists. split.
  - intros (blk & Hblk & H). apply existsb_exists in H as (J & HJ & Hs).
    assert (HJ' : J ∈ concat F).
    { apply list_elem_of_In, in_concat. eauto. }
    apply elem_of_function in HJ' as (b & i & E). eauto.
  - intros (b & i & J & E & Hs). exists (getBlock F b). split.
    + apply list_elem_of_In. apply getInst_Some_block in E.
      by eapply list_elem_of_lookup_2.
    + apply existsb_exists. exists J. split; [|done].
      apply list_elem_of_In. by eapply list_elem_of_lookup_2.
Qed.

Lemma hasSite_false (F : Function) :
  hasSite F = false <->
  forall b i J, getInst F b i = Some J -> isRewriteSite J = false.
Proof.
  split.
  - intros H b i J E. destruct (isRewriteSite J) eqn:Hs; [|done].
    assert (hasSite F = true) by (apply hasSite_spec; eauto). congruence.
  - intros H. destruct (hasSite F) eqn:E; [|done].
    apply hasSite_spec in E as (b & i & J & E & Hs).
    rewrite (H _ _ _ E) in Hs. done.
Qed.

Lemma before_next_inst (b i b' i' : nat) :
  before b (S i) b' i' <-> before b i b' i' \/ (b' = b /\ i' = i).
Proof. unfold before. lia. Qed.

Lemma before_next_block (b len b' i' : nat) :
  (b' = b -> (i' < len)%nat) ->
  before (S b) 0 b' i' <-> before b len b' i'.
Proof. unfold before. lia. Qed.

Lemma run_flag (F : Function) :
  (Modified (run F) = true /\ hasSite F = true /\
   (mulCount (fn (run F)) < mulCount F)%nat) \/
  (Modified (run F) = false /\ fn (run F) = F /\ hasSite F = false).
Proof.
  pose (Q := fun (b i : nat) (st : PassState) =>
    (Modified st = true /\ hasSite F = true /\
     (mulCount (fn st) < mulCount F)%nat) \/
    (Modified st = false /\ fn st = F /\
     forall b' i' J, getInst F b' i' = Some J -> before b i b' i' ->
       isRewriteSite J = false)).
  destruct (run_ind Q F) as [HQ _].
  - right. repeat split; try done. intros b' i' J _ Hb. unfold before in Hb. lia.
  - intros b i st HL Hb Hi [(HM & HS & Hc)|(HM & HF & Hv)].
    + left. destruct (visit_mulCount b i st) as [[-> _]|(_ & HM' & Hc')];
        simpl; [done|]. repeat split; [done|done|lia].
    + destruct (visit_mulCount b i st) as [[-> Hn]|((J & EJ & HJ) & HM' & Hc')];
        simpl.
      * right. repeat split; [done|done|].
        intros b' i' J EJ [Hbe|[-> ->]]%before_next_inst; [by eapply Hv|].
        apply Hn. by rewrite HF.
      * left. repeat split; [done| |rewrite HF in Hc'; lia].
        apply hasSite_spec. rewrite HF in EJ. eauto.
  - intros b st HL Hb [H|(HM & HF & Hv)]; [by left|right].
    repeat split; [done|done|].
    intros b' i' J EJ Hbe. apply (Hv b' i' J EJ).
    apply (before_next_block b (length (getBlock (fn st) b))) in Hbe; [done|].
    intros ->. rewrite HF. by destruct (getInst_lt _ _ _ _ EJ).
  - destruct HQ as [H|(HM & HF & Hv)]; [by left|right].
    repeat split; [done|done|].
    apply hasSite_false. intros b i J EJ. apply (Hv b i J EJ).
    left. by destruct (getInst_lt _ _ _ _ EJ).
Qed.


(** ** Identities *)

Lemma uniqueIds_positions (F : Function) b1 i1 b2 i2 J1 J2 :
  uniqueIds F = true ->
  getInst F b1 i1 = Some J1 -> getInst F b2 i2 = Some J2 ->
  iid J1 = iid J2 -> b1 = b2 /\ i1 = i2.
Proof.
  unfold uniqueIds. rewrite bool_decide_eq_true.
  revert b1 b2. induction F as [|blk F IH]; intros b1 b2 HN H1 H2 E.
  { unfold getInst, getBlock in H1. simpl in H1. by rewrite lookup_nil in H1. }
  simpl in HN. rewrite map_app in HN.
  apply NoDup_app in HN as (Hblk & Hdis & HF).
  assert (Hin : forall b i J, getInst F b i = Some J -> iid J ∈ map iid (concat F)).
  { intros b i J HJ. apply (list_elem_of_fmap_2 iid).
    apply elem_of_function. eauto. }
  assert (Hhd : forall i (J : Instruction), blk !! i = Some J -> iid J ∈ map iid blk).
  { intros i J HJ. apply (list_elem_of_fmap_2 iid).
    by eapply list_elem_of_lookup_2. }
  destruct b1 as [|b1], b2 as [|b2].
  - split; [done|]. unfold getInst, getBlock in H1, H2. simpl in H1, H2.
    eapply (NoDup_lookup (map iid blk)); [done| |].
    + change (map iid blk) with (iid <$> blk). rewrite list_lookup_fmap, H1. done.
    + change (map iid blk) with (iid <$> blk). rewrite list_lookup_fmap, H2.
      simpl. by rewrite E.
  - exfalso. rewrite getBlock_cons' in H2.
    apply (Hdis (iid J1)); [by eapply Hhd|]. rewrite E. by eapply Hin.
  - exfalso. rewrite getBlock_cons' in H1.
    apply (Hdis (iid J2)); [by eapply Hhd|]. rewrite <- E. by eapply Hin.
  - rewrite getBlock_cons' in H1, H2.
    destruct (IH b1 b2 HF H1 H2 E) as [-> ->]. done.
Qed.

Lemma foldr_max_ge (a : nat) (l : list nat) :
  (a <= foldr Nat.max a l)%nat /\ forall x, x ∈ l -> (x <= foldr Nat.max a l)%nat.
Proof.
  induction l as [|y l [IH1 IH2]]; simpl.
  - split; [lia|]. intros x Hx. by apply elem_of_nil in Hx.
  - split; [lia|]. intros x [->|Hx]%elem_of_cons; [lia|].
    specialize (IH2 x Hx). lia.
Qed.

Lemma maxId_ge (F : Function) (J : Instruction) :
  J ∈ concat F ->
  (iid J <= maxId F)%nat /\
  forall v, v ∈ operands J -> (valueId v <= maxId F)%nat.
Proof.
  intros HJ. unfold maxId.
  assert (H : (instMaxId J <= foldr Nat.max 0 (map instMaxId (concat F)))%nat).
  { apply foldr_max_ge. by apply (list_elem_of_fmap_2 instMaxId). }
  unfold instMaxId in H at 1.
  destruct (foldr_max_ge (iid J) (map valueId (operands J))) as [H1 H2].
  split; [lia|]. intros v Hv.
  specialize (H2 (valueId v) (list_elem_of_fmap_2 valueId _ _ Hv)). lia.
Qed.

Lemma iid_lt_fresh (F : Function) b i J :
  getInst F b i = Some J -> (iid J < fresh F)%nat.
Proof.
  intros H. unfold fresh.
  assert (J ∈ concat F) as [? _]%maxId_ge by (apply elem_of_function; eauto).
  lia.
Qed.

Lemma function_ext (F1 F2 : Function) :
  length F1 = length F2 -> (forall b, getBlock F1 b = getBlock F2 b) -> F1 = F2.
Proof.
  intros HL HB. apply list_eq. intros b.
  destruct (F1 !! b) as [x|] eqn:E1, (F2 !! b) as [y|] eqn:E2.
  - specialize (HB b). unfold getBlock in HB. rewrite E1, E2 in HB.
    simpl in HB. by subst.
  - apply lookup_lt_Some in E1. apply lookup_ge_None in E2. lia.
  - apply lookup_lt_Some in E2. apply lookup_ge_None in E1. lia.
  - done.
Qed.

(** ** Renamings *)

Lemma substValue_swapId (m n : nat) (v : Value) :
  substValue m (VInst n) v = renameValue (swapId m n) v.
Proof. destruct v; simpl; [|done|done]. unfold swapId. by destruct (decide _). Qed.

Lemma mapOperands_ext (f g : Value -> Value) (J : Instruction) :
  (forall v, f v = g v) -> mapOperands f J = mapOperands g J.
Proof.
  intros H. destruct J; simpl; [by rewrite !H|].
  f_equal. apply map_ext. auto.
Qed.

Lemma mapOperands_compose (f g : Value -> Value) (J : Instruction) :
  mapOperands f (mapOperands g J) = mapOperands (fun v => f (g v)) J.
Proof. destruct J; simpl; [done|]. by rewrite map_map. Qed.

Lemma redirect_swapId (m n : nat) (J : Instruction) :
  redirect m (VInst n) J = renameInst (swapId m n) J.
Proof. apply mapOperands_ext, substValue_swapId. Qed.

Lemma renameValue_compose (t s : nat -> nat) (v : Value) :
  renameValue t (renameValue s v) = renameValue (fun r => t (s r)) v.
Proof. by destruct v. Qed.

Lemma renameInst_compose (t s : nat -> nat) (J : Instruction) :
  renameInst t (renameInst s J) = renameInst (fun r => t (s r)) J.
Proof.
  unfold renameInst. rewrite mapOperands_compose.
  apply mapOperands_ext, renameValue_compose.
Qed.

Lemma iid_mapOperands (f : Value -> Value) (J : Instruction) :
  iid (mapOperands f J) = iid J.
Proof. by destruct J. Qed.

Lemma isConstant_renameValue (s : nat -> nat) (v : Value) :
  isConstant (renameValue s v) = isConstant v.
Proof. by destruct v. Qed.

Lemma isRewriteSite_renameInst (s : nat -> nat) (J : Instruction) :
  isRewriteSite (renameInst s J) = isRewriteSite J.
Proof.
  destruct J as [m op ty lhs rhs|]; [|done].
  destruct op; try done. by destruct rhs.
Qed.

Lemma rewriteWith_other (s : nat -> nat) (J : Instruction) :
  isRewriteSite J = false -> rewriteWith s J = renameInst s J.
Proof.
  destruct J as [m op ty lhs rhs|]; [|done].
  destruct op; try done. destruct rhs as [| |[]]; try done.
  simpl. by intros ->.
Qed.

(** a multiply of the rewrite class, taken apart *)
Lemma isRewriteSite_inv (J : Instruction) :
  isRewriteSite J = true ->
  exists m ty lhs w c,
    J = BinaryOperator m Mul ty lhs (VConst (ConstantInt w c)) /\
    isPowerOf2 c = true.
Proof.
  destruct J as [m op ty lhs rhs|]; [|done].
  destruct op; try done. destruct rhs as [| |[]]; try done.
  simpl. intros H. by exists m, ty, lhs, bits, val.
Qed.

Lemma renameInst_rewriteWith (t s : nat -> nat) (J : Instruction) :
  (isRewriteSite J = true -> t (s (iid J)) = s (iid J)) ->
  renameInst t (rewriteWith s J) = rewriteWith (fun r => t (s r)) J.
Proof.
  intros H. destruct (isRewriteSite J) eqn:Hs.
  - apply isRewriteSite_inv in Hs as (m & ty & lhs & w & c & -> & Hp).
    simpl in *. rewrite Hp. simpl. rewrite H by done.
    by rewrite renameValue_compose.
  - rewrite !rewriteWith_other by done. apply renameInst_compose.
Qed.

Lemma noFoldSite_spec (F : Function) :
  noFoldSite F = true <->
  forall b i J, getInst F b i = Some J -> isFoldSite J = false.
Proof.
  unfold noFoldSite. rewrite forallb_forall. split.
  - intros H b i J E.
    assert (Hb : In (getBlock F b) F).
    { apply list_elem_of_In. apply getInst_Some_block in E.
      by eapply list_elem_of_lookup_2. }
    specialize (H _ Hb). rewrite forallb_forall in H.
    apply negb_true_iff, H, list_elem_of_In. by eapply list_elem_of_lookup_2.
  - intros H blk Hblk. apply forallb_forall. intros J HJ.
    apply negb_true_iff.
    assert (HJ' : J ∈ concat F) by (apply list_elem_of_In, in_concat; eauto).
    apply elem_of_function in HJ' as (b & i & E). eauto.
Qed.

Lemma visit_shl_positions (b i : nat) (st : PassState) m ty lhs w c :
  getInst (fn st) b i = Some (BinaryOperator m Mul ty lhs (VConst (ConstantInt w c))) ->
  isPowerOf2 c = true ->
  isConstant lhs = false ->
  exists F',
    visit b i st = (mkState F' true (S (nextId st)), S i) /\
    length F' = length (fn st) /\
    (forall b', length (getBlock F' b') = length (getBlock (fn st) b')) /\
    forall b' i', getInst F' b' i' =
      if decide (b' = b /\ i' = i)
      then Some (renameInst (swapId m (nextId st)) (newShl (nextId st) ty lhs c))
      else renameInst (swapId m (nextId st)) <$> getInst (fn st) b' i'.
Proof.
  intros HI Hp Hc.
  destruct (visit_shl _ _ _ _ _ _ _ _ HI Hp Hc) as (F' & Hv & HL & HB).
  destruct (getInst_lt _ _ _ _ HI) as [Hb Hi].
  exists F'. split; [done|]. split; [done|]. split.
  - intros b'. rewrite HB. destruct (decide (b' = b)) as [->|];
      by rewrite ?length_insert, length_map.
  - intros b' i'. unfold getInst at 1. rewrite HB.
    change (map ?f ?l) with (f <$> l).
    destruct (decide (b' = b)) as [->|Hne].
    + rewrite list_lookup_insert, length_fmap.
      destruct (decide (i' = i)) as [->|Hne'].
      * rewrite !decide_True by done. by rewrite redirect_swapId.
      * rewrite !decide_False by (intros [? ?]; congruence).
        rewrite list_lookup_fmap. unfold getInst.
        destruct (getBlock (fn st) b !! i'); simpl; [|done].
        by rewrite redirect_swapId.
    + rewrite decide_False by (intros [? ?]; congruence).
      rewrite list_lookup_fmap. unfold getInst.
      destruct (getBlock (fn st) b' !! i'); simpl; [|done].
      by rewrite redirect_swapId.
Qed.

Lemma before_self (b i : nat) : ~ before b i b i.
Proof. unfold before. lia. Qed.

Lemma swapId_fresh (m n r : nat) : r <> m -> swapId m n r = r.
Proof. intros H. unfold swapId. by rewrite decide_False. Qed.

Lemma swapId_eq (m n : nat) : swapId m n m = n.
Proof. unfold swapId. by rewrite decide_True. Qed.

Lemma renamingInv_visit (F : Function) (b i : nat) (st : PassState) :
  uniqueIds F = true -> noFoldSite F = true ->
  (i < length (getBlock (fn st) b))%nat ->
  renamingInv F b i st ->
  renamingInv F b (visit b i st).2 (visit b i st).1.
Proof.
  intros HU HN Hi (s & HA & HB & HC & HD & HE & HG & HK & HI).
  assert (Hi' : (i < length (getBlock F b))%nat) by (by rewrite <- HC).
  apply lookup_lt_is_Some in Hi' as [J0 HJ0]. fold (getInst F b i) in HJ0.
  pose proof (HB _ _ _ HJ0) as Hcur.
  rewrite decide_False in Hcur by apply before_self.
  assert (Hfix : s (iid J0) = iid J0).
  { destruct (decide (s (iid J0) = iid J0)) as [|Hne]; [done|].
    destruct (HE _ Hne) as (b' & i' & J & HJ & Hid & _ & Hbe).
    destruct (uniqueIds_positions F _ _ _ _ _ _ HU HJ HJ0 Hid) as [-> ->].
    by apply before_self in Hbe. }
  destruct (isRewriteSite J0) eqn:Hs.
  - (* a multiply of the rewrite class *)
    pose proof Hs as (m & ty & lhs & w & c & -> & Hp)%isRewriteSite_inv.
    simpl in Hcur, Hfix.
    assert (Hc : isConstant (renameValue s lhs) = false).
    { rewrite isConstant_renameValue.
      pose proof (proj1 (noFoldSite_spec F) HN _ _ _ HJ0) as Hf.
      simpl in Hf. destruct lhs; try done. by rewrite Hp in Hf. }
    destruct (visit_shl_positions _ _ _ _ _ _ _ _ Hcur Hp Hc)
      as (F' & -> & HL & HLb & HP). simpl.
    set (n := nextId st) in *.
    assert (Hm : (m < fresh F)%nat) by apply (iid_lt_fresh _ _ _ _ HJ0).
    assert (Hold : forall r, s r <> r -> swapId m n (s r) = s r).
    { intros r Hr. apply swapId_fresh. destruct (HA r); [done|lia]. }
    exists (fun r => swapId m n (s r)). repeat split.
    + intros r. destruct (HA r) as [E|E].
      * rewrite E. unfold swapId. destruct (decide (r = m)); [right; lia|by left].
      * right. rewrite swapId_fresh; lia.
    + intros b' i' J HJ. rewrite HP.
      destruct (decide (b' = b /\ i' = i)) as [[-> ->]|Hne].
      * rewrite decide_True by (apply before_next_inst; tauto).
        rewrite HJ0 in HJ. injection HJ as <-. simpl. rewrite Hp.
        unfold newShl. simpl. rewrite Hfix, swapId_eq.
        by rewrite renameValue_compose.
      * rewrite (HB _ _ _ HJ). simpl. f_equal.
        destruct (decide (before b i b' i')) as [Hbe|Hbe].
        -- rewrite decide_True by (apply before_next_inst; tauto).
           apply renameInst_rewriteWith. intros HsJ.
           apply Hold. by eapply HG.
        -- rewrite decide_False by (rewrite before_next_inst; tauto).
           apply renameInst_compose.
    + intros b'. by rewrite HLb.
    + simpl. lia.
    + intros r Hr. destruct (decide (s r = r)) as [E|E].
      * rewrite E in Hr. assert (r = m) as ->.
        { destruct (decide (r = m)); [done|]. by rewrite swapId_fresh in Hr. }
        exists b, i. eexists. split; [exact HJ0|].
        repeat split; [done|]. apply before_next_inst. tauto.
      * destruct (HE _ E) as (b' & i' & J & HJ & Hid & HsJ & Hbe).
        exists b', i', J. repeat split; try done.
        apply before_next_inst. tauto.
    + intros b' i' J HJ HsJ [Hbe|[-> ->]]%before_next_inst.
      * pose proof (HG _ _ _ HJ HsJ Hbe) as Hne.
        rewrite Hold by done. done.
      * rewrite HJ0 in HJ. injection HJ as <-. simpl.
        rewrite Hfix, swapId_eq. lia.
    + intros r Hr. simpl. destruct (decide (s r = r)) as [E|E].
      * rewrite E in Hr |- *. unfold swapId in *.
        destruct (decide (r = m)); [lia|done].
      * rewrite Hold by done. specialize (HK r E). unfold n in *. lia.
    + intros r1 r2 H1 H2 E.
      assert (Hnew : forall r, s r = r -> swapId m n (s r) <> r ->
                r = m /\ swapId m n (s r) = n).
      { intros r Er Hr. rewrite Er in Hr |- *. unfold swapId in *.
        destruct (decide (r = m)); [done|done]. }
      destruct (decide (s r1 = r1)) as [E1|E1], (decide (s r2 = r2)) as [E2|E2].
      * destruct (Hnew _ E1 H1) as [-> _], (Hnew _ E2 H2) as [-> _]. done.
      * destruct (Hnew _ E1 H1) as [_ Hn1]. rewrite Hn1, (Hold _ E2) in E.
        specialize (HK r2 E2). unfold n in *. lia.
      * destruct (Hnew _ E2 H2) as [_ Hn2]. rewrite Hn2, (Hold _ E1) in E.
        specialize (HK r1 E1). unfold n in *. lia.
      * rewrite (Hold _ E1), (Hold _ E2) in E. by apply HI.
  - (* any other instruction *)
    rewrite visit_skip.
    2:{ rewrite Hcur. by rewrite isRewriteSite_renameInst. }
    simpl. exists s. repeat split; try done.
    + intros b' i' J HJ. rewrite (HB _ _ _ HJ). f_equal.
      destruct (decide (b' = b /\ i' = i)) as [[-> ->]|Hne].
      * rewrite decide_False by apply before_self.
        rewrite decide_True by (apply before_next_inst; tauto).
        rewrite HJ0 in HJ. injection HJ as <-.
        by rewrite rewriteWith_other.
      * destruct (decide (before b i b' i')) as [Hbe|Hbe].
        -- by rewrite decide_True by (apply before_next_inst; tauto).
        -- by rewrite decide_False by (rewrite before_next_inst; tauto).
    + intros r Hr. destruct (HE _ Hr) as (b' & i' & J & HJ & Hid & HsJ & Hbe).
      exists b', i', J. repeat split; try done. apply before_next_inst. tauto.
    + intros b' i' J HJ HsJ [Hbe|[-> ->]]%before_next_inst; [by eapply HG|].
      rewrite HJ0 in HJ. injection HJ as <-. congruence.
Qed.

Lemma renameValue_id (v : Value) : renameValue (fun r => r) v = v.
Proof. by destruct v. Qed.

Lemma renameInst_id (J : Instruction) : renameInst (fun r => r) J = J.
Proof.
  destruct J; simpl; [by rewrite !renameValue_id|].
  f_equal. rewrite <- (map_id ops) at 2. apply map_ext, renameValue_id.
Qed.

Lemma renamingInv_next_block (F : Function) (b : nat) (st : PassState) :
  renamingInv F b (length (getBlock (fn st) b)) st ->
  renamingInv F (S b) 0 st.
Proof.
  intros (s & HA & HB & HC & HD & HE & HG & HK & HI).
  assert (Hbe : forall b' i' J, getInst F b' i' = Some J ->
            before (S b) 0 b' i' <-> before b (length (getBlock (fn st) b)) b' i').
  { intros b' i' J HJ. apply before_next_block. intros ->.
    rewrite HC. by destruct (getInst_lt _ _ _ _ HJ). }
  exists s. repeat split; try done.
  - intros b' i' J HJ. rewrite (HB _ _ _ HJ). f_equal.
    symmetry. apply decide_ext. by eapply Hbe.
  - intros r Hr. destruct (HE _ Hr) as (b' & i' & J & HJ & Hid & HsJ & Hb).
    exists b', i', J. repeat split; try done. by eapply Hbe.
  - intros b' i' J HJ HsJ Hb. eapply HG; [done|done|]. by eapply Hbe.
Qed.

(** In a function with distinct identities where the builder never folds,
    the pass computes [mapFunction (rewriteWith s)] for a map [s] that
    moves exactly the identities of the rewritten multiplies, each to an
    identity that the input does not use. *)
Lemma run_rewriteWith_inj (F : Function) :
  uniqueIds F = true -> noFoldSite F = true ->
  exists s : nat -> nat,
    fn (run F) = mapFunction (rewriteWith s) F /\
    (forall r, s r = r \/ (fresh F <= s r)%nat) /\
    (forall r, s r <> r <->
       exists b i J, getInst F b i = Some J /\ iid J = r /\
                     isRewriteSite J = true) /\
    (forall r1 r2, s r1 <> r1 -> s r2 <> r2 -> s r1 = s r2 -> r1 = r2).
Proof.
  intros HU HN.
  destruct (run_ind (renamingInv F) F) as [(s & HA & HB & HC & HD & HE & HG & HK & HI) HL].
  - exists (fun r => r). repeat split; try done.
    + by left.
    + intros b' i' J HJ. simpl. rewrite HJ, decide_False, renameInst_id; [done|].
      unfold before. lia.
    + intros b' i' J _ _ Hb. unfold before in Hb. lia.
  - intros b i st _ _ Hi HQ. by apply renamingInv_visit.
  - intros b st _ _ HQ. by apply renamingInv_next_block.
  - assert (Hall : forall b i J, getInst F b i = Some J -> before (length F) 0 b i).
    { intros b i J HJ. left. by destruct (getInst_lt _ _ _ _ HJ). }
    exists s. split; [|split; [done|split; [|done]]].
    + apply function_ext; [by rewrite length_mapFunction|].
      intros b. rewrite getBlock_mapFunction. apply list_eq. intros i.
      change (map ?f ?l) with (f <$> l). rewrite list_lookup_fmap.
      fold (getInst (fn (run F)) b i). fold (getInst F b i).
      destruct (getInst F b i) as [J|] eqn:HJ.
      * rewrite (HB _ _ _ HJ). rewrite decide_True; [done|by eapply Hall].
      * simpl. unfold getInst in *. apply lookup_ge_None_2. rewrite HC.
        by apply lookup_ge_None_1.
    + intros r. split.
      * intros Hr. destruct (HE _ Hr) as (b & i & J & HJ & Hid & HsJ & _).
        by exists b, i, J.
      * intros (b & i & J & HJ & <- & HsJ). eapply HG; [done|done|by eapply Hall].
Qed.

Lemma run_rewriteWith (F : Function) :
  uniqueIds F = true -> noFoldSite F = true ->
  exists s : nat -> nat,
    fn (run F) = mapFunction (rewriteWith s) F /\
    (forall r, s r = r \/ (fresh F <= s r)%nat) /\
    (forall r, s r <> r <->
       exists b i J, getInst F b i = Some J /\ iid J = r /\
                     isRewriteSite J = true).
Proof.
  intros HU HN.
  destruct (run_rewriteWith_inj F HU HN) as (s & H1 & H2 & H3 & _).
  by exists s.
Qed.

(** ** Powers of two *)

Lemma isPowerOf2_pow (k : Z) : 0 <= k -> isPowerOf2 (2 ^ k) = true.
Proof.
  intros Hk. unfold isPowerOf2. apply andb_true_intro. split.
  - apply Z.ltb_lt. by apply Z.pow_pos_nonneg.
  - apply Z.eqb_eq. replace (2 ^ k - 1) with (Z.ones k)
      by (rewrite Z.ones_equiv; lia).
    rewrite Z.land_ones by done. apply Z.mod_same. apply Z.pow_nonzero; lia.
Qed.

Lemma isPowerOf2_exact (c : Z) :
  isPowerOf2 c = true -> 0 <= Z.log2 c /\ c = 2 ^ Z.log2 c.
Proof.
  unfold isPowerOf2. intros [Hpos Hland]%andb_true_iff.
  apply Z.ltb_lt in Hpos. apply Z.eqb_eq in Hland.
  split; [apply Z.log2_nonneg|].
  destruct (Z.log2_spec c Hpos) as [Hlo Hhi].
  destruct (Z.eq_dec c (2 ^ Z.log2 c)) as [|Hne]; [done|exfalso].
  assert (Hlog : Z.log2 (c - 1) = Z.log2 c).
  { apply Z.log2_unique; [apply Z.log2_nonneg|]. lia. }
  assert (Hbit : Z.testbit (Z.land c (c - 1)) (Z.log2 c) = true).
  { rewrite Z.land_spec, Z.bit_log2 by done.
    rewrite <- Hlog. rewrite Z.bit_log2; [done|].
    pose proof (Z.pow_pos_nonneg 2 (Z.log2 c)) as Hp.
    pose proof (Z.log2_nonneg c). lia. }
  rewrite Hland in Hbit. by rewrite Z.bits_0 in Hbit.
Qed.

Lemma isPowerOf2_spec (c : Z) :
  isPowerOf2 c = true <-> exists k, 0 <= k /\ c = 2 ^ k.
Proof.
  split.
  - intros H. exists (Z.log2 c). by apply isPowerOf2_exact.
  - intros (k & Hk & ->). by apply isPowerOf2_pow.
Qed.

Lemma exactLogBase2_pow2 (c : Z) :
  isPowerOf2 c = true -> exactLogBase2 c = Z.log2 c.
Proof. unfold exactLogBase2. by intros ->. Qed.

(** the shift amount the pass builds, when the logarithm fits the
    uint32_t parameter of getInt32 *)
Lemma getInt32_log2 (c : Z) :
  isPowerOf2 c = true -> Z.log2 c < 2 ^ 32 ->
  getInt32 (exactLogBase2 c) = ConstantInt 32 (Z.log2 c).
Proof.
  intros Hp Hlt. rewrite exactLogBase2_pow2 by done. unfold getInt32.
  rewrite Z.mod_small; [done|]. split; [apply Z.log2_nonneg|done].
Qed.

Lemma isPowerOf2_one : isPowerOf2 1 = true /\ exactLogBase2 1 = 0.
Proof. done. Qed.

(** ** What the rewritten function looks like *)

Lemma getInst_rewriteWith (s : nat -> nat) (F : Function) (b i : nat) :
  getInst (mapFunction (rewriteWith s) F) b i = rewriteWith s <$> getInst F b i.
Proof. apply getInst_mapFunction. Qed.

Lemma operands_rewriteWith (s : nat -> nat) (J : Instruction) (v' : Value) :
  v' ∈ operands (rewriteWith s J) ->
  isConstant v' = true \/ exists v, v ∈ operands J /\ v' = renameValue s v.
Proof.
  destruct (isRewriteSite J) eqn:Hs.
  - apply isRewriteSite_inv in Hs as (m & ty & lhs & w & c & -> & Hp).
    simpl. rewrite Hp. simpl.
    intros [->|[->|[]%elem_of_nil]%elem_of_cons]%elem_of_cons.
    + right. exists lhs. split; [|done]. apply elem_of_cons. by left.
    + by left.
  - rewrite rewriteWith_other by done. intros Hv. right.
    destruct J as [m op ty lhs rhs|m opc ty ops]; simpl in *.
    + apply elem_of_cons in Hv as [->|[->|[]%elem_of_nil]%elem_of_cons].
      * exists lhs. split; [|done]. apply elem_of_cons. by left.
      * exists rhs. split; [|done]. apply elem_of_cons. right.
        apply elem_of_cons. by left.
    + apply (list_elem_of_fmap_1 (renameValue s)) in Hv as (v & -> & Hv). eauto.
Qed.

Lemma iid_rewriteWith (s : nat -> nat) (J : Instruction) :
  iid (rewriteWith s J) = if isRewriteSite J then s (iid J) else iid J.
Proof.
  destruct (isRewriteSite J) eqn:Hs.
  - apply isRewriteSite_inv in Hs as (m & ty & lhs & w & c & -> & Hp).
    simpl. by rewrite Hp.
  - rewrite rewriteWith_other by done. apply iid_mapOperands.
Qed.




Lemma renameInst_fixed (s : nat -> nat) (J : Instruction) :
  (forall r, VInst r ∈ operands J -> s r = r) -> renameInst s J = J.
Proof.
  intros H. rewrite <- (renameInst_id J) at 2.
  unfold renameInst. destruct J as [m op ty lhs rhs|m opc ty ops]; simpl in *.
  - f_equal.
    + destruct lhs as [r| |]; simpl; try done. rewrite H; [done|].
      apply elem_of_cons. by left.
    + destruct rhs as [r| |]; simpl; try done. rewrite H; [done|].
      apply elem_of_cons. right. apply elem_of_cons. by left.
  - f_equal. apply map_ext_in. intros v Hv%list_elem_of_In.
    destruct v as [r| |]; simpl; try done. by rewrite H.
Qed.

(** C4 (as amended): in a function with distinct identities in which no
    multiply of the rewrite class has a Constant first operand, the
    result is the input with every instruction mapped by [rewriteWith s],
    where [s] moves exactly the identities of the rewritten multiplies,
    each to the identity of the shl that stands at the place of that
    multiply.  An instruction outside the rewrite class keeps its place,
    its identity, its opcode and its type; an operand changes only if it
    referred to a rewritten multiply, and then refers to the shl that
    replaced it; an instruction that uses no rewritten multiply is left
    exactly as it was. *)
Theorem C4_other_instructions_kept (F : Function) :
  uniqueIds F = true -> noFoldSite F = true ->
  exists s : nat -> nat,
    fn (run F) = mapFunction (rewriteWith s) F /\
    (forall r, s r <> r <->
       exists b i J, getInst F b i = Some J /\ iid J = r /\
                     isRewriteSite J = true) /\
    (forall b i m ty lhs w c,
       getInst F b i =
         Some (BinaryOperator m Mul ty lhs (VConst (ConstantInt w c))) ->
       isPowerOf2 c = true ->
       getInst (fn (run F)) b i =
         Some (BinaryOperator (s m) Shl ty (renameValue s lhs)
                 (VConst (getInt32 (exactLogBase2 c))))) /\
    forall b i J,
      getInst F b i = Some J -> isRewriteSite J = false ->
      getInst (fn (run F)) b i = Some (renameInst s J) /\
      iid (renameInst s J) = iid J /\
      ((forall r, VInst r ∈ operands J -> s r = r) ->
       getInst (fn (run F)) b i = Some J).
Proof.
  intros HU HN. destruct (run_rewriteWith F HU HN) as (s & Hrun & HA & HS).
  exists s. split; [done|]. split; [done|]. split.
  - intros b i m ty lhs w c HJ Hp.
    rewrite Hrun, getInst_rewriteWith, HJ. simpl. by rewrite Hp.
  - intros b i J HJ Hs.
    assert (E : getInst (fn (run F)) b i = Some (renameInst s J)).
    { rewrite Hrun, getInst_rewriteWith, HJ. simpl.
      by rewrite rewriteWith_other. }
    split; [done|]. split; [apply iid_mapOperands|].
    intros Hfix. by rewrite E, renameInst_fixed.
Qed.

(** On the two-block example the add that used the first multiply now
    uses the shl standing at the place of that multiply. *)
Lemma C4_witness :
  uniqueIds twoSiteBody = true /\ noFoldSite twoSiteBody = true /\
  exists s : nat -> nat,
    s 0%nat <> 0%nat /\
    getInst (fn (run twoSiteBody)) 0 0 =
      Some (BinaryOperator (s 0%nat) Shl i32 (VArg 0) (CI 32 2)) /\
    getInst (fn (run twoSiteBody)) 0 1 =
      Some (BinaryOperator 1 Add i32 (VInst (s 0%nat)) (CI i32 1)).
Proof.
  split; [reflexivity|]. split; [reflexivity|].
  destruct (C4_other_instructions_kept twoSiteBody eq_refl eq_refl)
    as (s & _ & HS & Hsite & Hother).
  exists s. split; [|split].
  - apply HS. exists 0%nat, 0%nat. eexists. split; [reflexivity|]. by split.
  - exact (Hsite 0%nat 0%nat 0%nat i32 (VArg 0) i32 4 eq_refl eq_refl).
  - exact (proj1 (Hother 0%nat 1%nat _ eq_refl eq_refl)).
Defined.

(** C4 (as stated) fails: in
    { %0 = mul i32 1, 4 ; %1 = mul i32 %x, %0 ; use %1 }
    the second multiply has no constant operand, yet once the first one
    is folded to the constant 4 it reads [mul i32 %x, 4] and the pass
    replaces it by a shl. *)
Lemma C4_counterexample :
  getInst chainBody 0 1 = Some (BinaryOperator 1 Mul i32 (VArg 0) (VInst 0)) /\
  isRewriteSite (BinaryOperator 1 Mul i32 (VArg 0) (VInst 0)) = false /\
  fn (run chainBody) =
    [[ BinaryOperator 3 Shl i32 (VArg 0) (CI i32 2); OtherInst 2 0 0 [VInst 3] ]] /\
  ~ exists b i lhs rhs,
      getInst (fn (run chainBody)) b i = Some (BinaryOperator 1 Mul i32 lhs rhs).
Proof.
  repeat split; try reflexivity.
  intros (b & i & lhs & rhs & H).
  change (fn (run chainBody)) with
    [[ BinaryOperator 3 Shl i32 (VArg 0) (CI i32 2); OtherInst 2 0 0 [VInst 3] ]]
    in H.
  destruct b as [|[|b]], i as [|[|[|i]]]; discriminate H.
Qed.

(** ** Sizes *)

Lemma instCount_mapFunction (f : Instruction -> Instruction) (F : Function) :
  instCount (mapFunction f F) = instCount F.
Proof.
  unfold instCount, mapFunction. induction F as [|blk F IH]; simpl; [done|].
  by rewrite length_map, IH.
Qed.

(** C9 (as amended): in a function with distinct identities in which no
    multiply of the rewrite class has a Constant first operand, the pass
    keeps the number and the order of the blocks, the length of every
    block and so the number of instructions; every instruction outside
    the rewrite class stays at its position (with its uses redirected)
    and every multiply of the rewrite class is replaced, at its position,
    by one shl. *)
Theorem C9_blocks_and_counts_kept (F : Function) :
  uniqueIds F = true -> noFoldSite F = true ->
  length (fn (run F)) = length F /\
  (forall b, length (getBlock (fn (run F)) b) = length (getBlock F b)) /\
  instCount (fn (run F)) = instCount F /\
  exists s : nat -> nat, forall b i J,
    getInst F b i = Some J ->
    getInst (fn (run F)) b i =
      Some (if isRewriteSite J then rewriteWith s J else renameInst s J) /\
    (isRewriteSite J = true -> isMultiply J = true /\
       exists n ty lhs rhs, rewriteWith s J = BinaryOperator n Shl ty lhs rhs).
Proof.
  intros HU HN. destruct (run_rewriteWith F HU HN) as (s & Hrun & HA & HS).
  rewrite Hrun. repeat split.
  - apply length_mapFunction.
  - intros b. by rewrite getBlock_mapFunction, length_map.
  - apply instCount_mapFunction.
  - exists s. intros b i J HJ. rewrite getInst_rewriteWith, HJ. simpl.
    destruct (isRewriteSite J) eqn:Hs.
    + split; [done|]. intros _.
      apply isRewriteSite_inv in Hs as (m & ty & lhs & w & c & -> & Hp).
      split; [done|]. simpl. rewrite Hp. eauto.
    + by rewrite rewriteWith_other.
Qed.

Lemma C9_witness :
  uniqueIds twoSiteBody = true /\ noFoldSite twoSiteBody = true /\
  length (fn (run twoSiteBody)) = length twoSiteBody /\
  instCount (fn (run twoSiteBody)) = instCount twoSiteBody.
Proof.
  split; [reflexivity|]. split; [reflexivity|].
  destruct (C9_blocks_and_counts_kept twoSiteBody eq_refl eq_refl)
    as (H1 & _ & H2 & _).
  split; [exact H1|exact H2].
Defined.

(** C9 (as stated) fails when the builder folds: for
    { %0 = mul i32 3, 4 ; use %0 } the multiply is erased and nothing is
    inserted, so the function has one instruction less. *)
Lemma C9_counterexample :
  instCount constMulBody = 2%nat /\ instCount (fn (run constMulBody)) = 1%nat.
Proof. split; reflexivity. Qed.

(** ** The shift amount *)

(** C10: whenever the loop body replaces a multiply [mul lhs, c] by a new
    shl instruction, whatever the type [ty] of the multiply and the width
    [w] of its constant, the second operand of that shl is the ConstantInt
    of width 32 whose value is log2 c (and c = 2 ^ log2 c). *)
Theorem C10_shift_amount_is_i32 (b i : nat) (st : PassState) m ty lhs w c :
  getInst (fn st) b i =
    Some (BinaryOperator m Mul ty lhs (VConst (ConstantInt w c))) ->
  isPowerOf2 c = true ->
  isConstant lhs = false ->
  Z.log2 c < 2 ^ 32 ->
  getInst (fn (visit b i st).1) b i =
    Some (BinaryOperator (nextId st) Shl ty
            (substValue m (VInst (nextId st)) lhs)
            (VConst (ConstantInt 32 (Z.log2 c)))) /\
  c = 2 ^ Z.log2 c.
Proof.
  intros HJ Hp Hc Hlog.
  destruct (visit_shl_positions _ _ _ _ _ _ _ _ HJ Hp Hc)
    as (F' & -> & _ & _ & HP).
  simpl. rewrite HP, decide_True by done. split.
  - unfold newShl. simpl. rewrite getInt32_log2 by done.
    by rewrite substValue_swapId.
  - by apply isPowerOf2_exact.
Qed.

Lemma C10_witness :
  getInst (fn (mkState wideBody false (fresh wideBody))) 0 0 =
    Some (BinaryOperator 0 Mul 64 (VArg 0) (VConst (ConstantInt 64 8))) /\
  isPowerOf2 8 = true /\ isConstant (VArg 0) = false /\ Z.log2 8 < 2 ^ 32 /\
  getInst (fn (visit 0 0 (mkState wideBody false (fresh wideBody))).1) 0 0 =
    Some (BinaryOperator (fresh wideBody) Shl 64
            (substValue 0 (VInst (fresh wideBody)) (VArg 0))
            (VConst (ConstantInt 32 (Z.log2 8)))).
Proof.
  split; [reflexivity|]. split; [reflexivity|]. split; [reflexivity|].
  split; [reflexivity|].
  exact (proj1 (C10_shift_amount_is_i32 0 0 (mkState wideBody false (fresh wideBody))
                  0 64 (VArg 0) 64 8 eq_refl eq_refl eq_refl eq_refl)).
Defined.

(** ** The constant one *)

(** C8 (as amended): a multiply by the constant 1 belongs to the rewrite
    class; in a function with distinct identities in which no multiply of
    the rewrite class has a Constant first operand, the pass replaces it,
    at its place, by a shl whose shift amount is the 32-bit constant 0,
    and reports a modification. *)
Theorem C8_multiply_by_one_rewritten (F : Function) b i m ty lhs w :
  uniqueIds F = true -> noFoldSite F = true ->
  getInst F b i = Some (BinaryOperator m Mul ty lhs (VConst (ConstantInt w 1))) ->
  isRewriteSite (BinaryOperator m Mul ty lhs (VConst (ConstantInt w 1))) = true /\
  Modified (run F) = true /\
  exists n lhs',
    getInst (fn (run F)) b i =
      Some (BinaryOperator n Shl ty lhs' (VConst (ConstantInt 32 0))) /\
    (fresh F <= n)%nat.
Proof.
  intros HU HN HJ. split; [done|]. split.
  - destruct (run_flag F) as [(HM & _)|(_ & _ & HS)]; [done|].
    rewrite hasSite_false in HS. by specialize (HS _ _ _ HJ).
  - destruct (run_rewriteWith F HU HN) as (s & Hrun & HA & HS).
    exists (s m), (renameValue s lhs). split.
    + by rewrite Hrun, getInst_rewriteWith, HJ.
    + destruct (HA m) as [E|E]; [|done]. exfalso. revert E. apply HS.
      exists b, i. eexists. by split; [exact HJ|].
Qed.

Lemma C8_witness :
  uniqueIds mulOneBody = true /\ noFoldSite mulOneBody = true /\
  getInst mulOneBody 0 0 =
    Some (BinaryOperator 0 Mul i32 (VArg 0) (VConst (ConstantInt i32 1))) /\
  Modified (run mulOneBody) = true.
Proof.
  split; [reflexivity|]. split; [reflexivity|]. split; [reflexivity|].
  exact (proj1 (proj2 (C8_multiply_by_one_rewritten mulOneBody 0 0 0 i32
                         (VArg 0) i32 eq_refl eq_refl eq_refl))).
Defined.

(** C8 (as stated) fails when the first operand is a Constant: for
    { %0 = mul i32 5, 1 ; use %0 } the multiply is matched, but the
    builder folds [shl 5, 0] to the constant 5 and no shl is created. *)
Lemma C8_counterexample :
  getInst mulOneConstBody 0 0 =
    Some (BinaryOperator 0 Mul i32 (CI i32 5) (CI i32 1)) /\
  run mulOneConstBody = mkState [[ OtherInst 1 0 0 [CI i32 5] ]] true 2 /\
  ~ exists b i n ty lhs rhs,
      getInst (fn (run mulOneConstBody)) b i =
        Some (BinaryOperator n Shl ty lhs rhs).
Proof.
  repeat split; try reflexivity.
  intros (b & i & n & ty & lhs & rhs & H).
  change (fn (run mulOneConstBody)) with [[ OtherInst 1 0 0 [CI i32 5] ]] in H.
  destruct b as [|[|b]], i as [|[|i]]; discriminate H.
Qed.

(** ** The instructions after one rewrite *)

Lemma visit_fold_positions (b i : nat) (st : PassState) m ty LC w c :
  getInst (fn st) b i =
    Some (BinaryOperator m Mul ty (VConst LC) (VConst (ConstantInt w c))) ->
  isPowerOf2 c = true ->
  exists F',
    visit b i st = (mkState F' true (nextId st), i) /\
    length F' = length (fn st) /\
    forall b' i', getInst F' b' i' =
      redirect m (CreateShl_result (nextId st) (VConst LC) c) <$>
        getInst (fn st) b' (if decide (b' = b /\ (i <= i')%nat) then S i' else i').
Proof.
  intros HI Hp.
  destruct (visit_fold _ _ _ _ _ _ _ _ HI Hp) as (F' & Hv & HL & HB).
  exists F'. split; [done|]. split; [done|].
  intros b' i'. unfold getInst at 1. rewrite HB.
  change (map ?f ?l) with (f <$> l).
  destruct (decide (b' = b)) as [->|Hne].
  - destruct (decide (i <= i')%nat) as [Hle|Hlt].
    + rewrite decide_True by done.
      rewrite list_lookup_delete_ge by done. by rewrite list_lookup_fmap.
    + rewrite decide_False by tauto.
      rewrite list_lookup_delete_lt by lia. by rewrite list_lookup_fmap.
  - rewrite decide_False by tauto. by rewrite list_lookup_fmap.
Qed.

Lemma CreateShl_result_inst (n : nat) (lhs : Value) (c : Z) :
  isConstant lhs = false -> CreateShl_result n lhs c = VInst n.
Proof. by destruct lhs. Qed.

Lemma visit_rewrite_members (b i : nat) (st : PassState) m ty lhs w c :
  getInst (fn st) b i =
    Some (BinaryOperator m Mul ty lhs (VConst (ConstantInt w c))) ->
  isPowerOf2 c = true ->
  (forall J1, J1 ∈ concat (fn (visit b i st).1) ->
     (isConstant lhs = false /\
      J1 = redirect m (CreateShl_result (nextId st) lhs c)
             (newShl (nextId st) ty lhs c)) \/
     exists Jo, Jo ∈ concat (fn st) /\
                J1 = redirect m (CreateShl_result (nextId st) lhs c) Jo) /\
  (forall Jo, Jo ∈ concat (fn st) -> iid Jo <> m ->
     redirect m (CreateShl_result (nextId st) lhs c) Jo
       ∈ concat (fn (visit b i st).1)) /\
  (isConstant lhs = false ->
     redirect m (CreateShl_result (nextId st) lhs c)
       (newShl (nextId st) ty lhs c) ∈ concat (fn (visit b i st).1)) /\
  Modified (visit b i st).1 = true /\
  nextId (visit b i st).1 =
    (if isConstant lhs then nextId st else S (nextId st)).
Proof.
  intros HI Hp. destruct (isConstant lhs) eqn:Hc.
  - destruct lhs as [| |LC]; try done.
    destruct (visit_fold_positions _ _ _ _ _ _ _ _ HI Hp) as (F' & -> & HL & HP).
    simpl fst. simpl fn. simpl Modified. simpl nextId.
    repeat split; try done.
    + intros J1 (b' & i' & H1)%elem_of_function. right.
      rewrite HP in H1.
      destruct (getInst (fn st) b' _) as [Jo|] eqn:Eo; [|done].
      injection H1 as <-. exists Jo. split; [|done].
      apply elem_of_function. eauto.
    + intros Jo (b' & i' & Ho)%elem_of_function Hid.
      apply elem_of_function.
      destruct (decide (b' = b /\ (i <= i')%nat)) as [[-> Hle]|Hn].
      * assert (i <> i') by (intros <-; rewrite HI in Ho; by injection Ho as <-).
        exists b, (pred i'). rewrite HP, decide_True by (split; [done|lia]).
        replace (S (pred i')) with i' by lia. by rewrite Ho.
      * exists b', i'. rewrite HP, decide_False by done. by rewrite Ho.
  - destruct (visit_shl_positions _ _ _ _ _ _ _ _ HI Hp Hc)
      as (F' & -> & HL & HLb & HP).
    simpl fst. simpl fn. simpl Modified. simpl nextId.
    rewrite (CreateShl_result_inst _ _ _ Hc).
    repeat split; try done.
    + intros J1 (b' & i' & H1)%elem_of_function.
      rewrite HP in H1. destruct (decide (b' = b /\ i' = i)) as [_|_].
      * left. injection H1 as <-. by rewrite redirect_swapId.
      * right. destruct (getInst (fn st) b' i') as [Jo|] eqn:Eo; [|done].
        injection H1 as <-. exists Jo. split; [|by rewrite redirect_swapId].
        apply elem_of_function. eauto.
    + intros Jo (b' & i' & Ho)%elem_of_function Hid.
      apply elem_of_function. exists b', i'. rewrite HP.
      rewrite decide_False.
      * rewrite Ho. simpl. by rewrite redirect_swapId.
      * intros [-> ->]. rewrite HI in Ho. by injection Ho as <-.
    + intros _. apply elem_of_function. exists b, i.
      rewrite HP, decide_True by done. by rewrite redirect_swapId.
Qed.

(** ** Errors *)

Lemma constType_fold (LC : Constant) (k : Z) :
  constType (ConstantFoldShl LC (getInt32 k)) = constType LC.
Proof.
  destruct LC as [b1 v1| | |]; simpl; try done.
  by destruct (_ <? _).
Qed.

Lemma i32Muls_spec (F : Function) :
  i32Muls F = true <-> forall J, J ∈ concat F -> i32Mul J = true.
Proof.
  unfold i32Muls. rewrite forallb_forall. split.
  - intros H J HJ%list_elem_of_In. by apply H.
  - intros H J HJ%list_elem_of_In. by apply H.
Qed.

(** the operand a multiply is asked for is there *)
Lemma getOperand_multiply (J : Instruction) :
  isMultiply J = true ->
  getNumOperands J = 2%nat /\
  (exists v, getOperand J 0 = Done v) /\ (exists v, getOperand J 1 = Done v).
Proof.
  destruct J as [m op ty lhs rhs|]; [|done]. intros _.
  split; [done|]. split; [by exists lhs|by exists rhs].
Qed.

(** an iteration stops on a difference of types, or is the iteration of
    the pass *)
Lemma visitChecked_cases (b i : nat) (st : PassState) :
  visitChecked b i st = Done (visit b i st) \/
  (visitChecked b i st = Failed OperandTypesDiffer /\
   exists J, getInst (fn st) b i = Some J /\ isRewriteSite J = true /\
             i32Mul J = false).
Proof.
  unfold visitChecked.
  destruct (getInst (fn st) b i) as [J|] eqn:E; [|by left].
  destruct J as [m op ty lhs rhs|]; [|by left].
  destruct op; try by left.
  cbn [getOperand operands lookup list_lookup].
  destruct rhs as [| |[w c| | |]]; try by left.
  destruct (isPowerOf2 c) eqn:Hp; [|by left].
  destruct ((typeOf ty lhs =? 32) && (typeOf ty lhs =? ty)) eqn:Ht; [by left|].
  right. split; [done|]. eexists. split; [done|]. split; [exact Hp|].
  cbn [i32Mul]. apply andb_false_iff in Ht as [Ht|Ht].
  - rewrite Ht. apply andb_false_r.
  - destruct (ty =? 32) eqn:E32; [|done]. apply Z.eqb_eq in E32.
    apply Z.eqb_neq in Ht. simpl. apply Z.eqb_neq. congruence.
Qed.

Lemma visitChecked_i32 (b i : nat) (st : PassState) :
  i32Muls (fn st) = true -> visitChecked b i st = Done (visit b i st).
Proof.
  intros HT. destruct (visitChecked_cases b i st) as [|(_ & J & HJ & _ & Hf)];
    [done|exfalso].
  assert (HJc : J ∈ concat (fn st)) by (apply elem_of_function; eauto).
  apply (proj1 (i32Muls_spec _) HT) in HJc. congruence.
Qed.

(** the multiplies stay i32 multiplies *)
Lemma visit_i32Muls (b i : nat) (st : PassState) :
  i32Muls (fn st) = true -> i32Muls (fn (visit b i st).1) = true.
Proof.
  rewrite !i32Muls_spec. intros HT.
  destruct (visit_cases b i st) as [[-> _]|(m & ty & lhs & w & c & HI & Hp)];
    [done|].
  destruct (visit_rewrite_members _ _ _ _ _ _ _ _ HI Hp) as (Hback & _).
  assert (HMul : BinaryOperator m Mul ty lhs (VConst (ConstantInt w c))
                   ∈ concat (fn st)) by (apply elem_of_function; eauto).
  pose proof (HT _ HMul) as HM. cbn [i32Mul] in HM.
  apply andb_true_iff in HM as [Hty Hlhs]. apply Z.eqb_eq in Hty, Hlhs.
  set (new := CreateShl_result (nextId st) lhs c) in *.
  assert (Hnew : forall ty', ty' = 32 -> typeOf ty' new = 32).
  { intros ty' ->. unfold new, CreateShl_result.
    destruct lhs as [| |LC]; try done.
    cbn [typeOf] in *. by rewrite constType_fold. }
  intros J1 [[_ ->]|(Jo & HJo & ->)]%Hback; [done|].
  specialize (HT _ HJo).
  destruct Jo as [id op ty' l r|]; [|done]. destruct op; try done.
  cbn [i32Mul] in HT. apply andb_true_iff in HT as [Hty' Hl].
  cbn [redirect mapOperands i32Mul]. rewrite Hty'. simpl.
  apply Z.eqb_eq in Hty'.
  destruct l as [r0| |]; try done. simpl.
  destruct (decide (r0 = m)); [|done].
  apply Z.eqb_eq. by apply Hnew.
Qed.

Lemma runBlockChecked_cases (rem b i : nat) (st : PassState) :
  runBlockChecked rem b i st = Done (runBlock rem b i st) \/
  runBlockChecked rem b i st = Failed OperandTypesDiffer.
Proof.
  revert i st. induction rem as [|rem IH]; intros i st; simpl; [by left|].
  destruct (visitChecked_cases b i st) as [->|[-> _]]; [|by right].
  destruct (visit b i st) as [st' i']. apply IH.
Qed.

Lemma runBlocksChecked_cases (nb b : nat) (st : PassState) :
  runBlocksChecked nb b st = Done (runBlocks nb b st) \/
  runBlocksChecked nb b st = Failed OperandTypesDiffer.
Proof.
  revert b st. induction nb as [|nb IH]; intros b st; simpl; [by left|].
  destruct (runBlockChecked_cases (length (getBlock (fn st) b)) b 0 st)
    as [->| ->]; [|by right].
  apply IH.
Qed.

Lemma runBlockChecked_i32 (rem b i : nat) (st : PassState) :
  i32Muls (fn st) = true ->
  runBlockChecked rem b i st = Done (runBlock rem b i st) /\
  i32Muls (fn (runBlock rem b i st)) = true.
Proof.
  revert i st. induction rem as [|rem IH]; intros i st HT; simpl; [done|].
  rewrite visitChecked_i32 by done.
  pose proof (visit_i32Muls b i st HT) as HT'.
  destruct (visit b i st) as [st' i']. by apply IH.
Qed.

Lemma runBlocksChecked_i32 (nb b : nat) (st : PassState) :
  i32Muls (fn st) = true ->
  runBlocksChecked nb b st = Done (runBlocks nb b st).
Proof.
  revert b st. induction nb as [|nb IH]; intros b st HT; simpl; [done|].
  destruct (runBlockChecked_i32 (length (getBlock (fn st) b)) b 0 st HT)
    as [-> HT'].
  by apply IH.
Qed.




(** ** No dangling reference *)

Lemma definedIn_spec (F : Function) (r : nat) :
  definedIn F r = true <-> exists J, J ∈ concat F /\ iid J = r.
Proof.
  unfold definedIn. rewrite existsb_exists. split.
  - intros (J & HJ%list_elem_of_In & E%Nat.eqb_eq). eauto.
  - intros (J & HJ%list_elem_of_In & E%Nat.eqb_eq). eauto.
Qed.

Lemma closed_spec (F : Function) :
  closed F = true <->
  forall J r, J ∈ concat F -> VInst r ∈ operands J ->
    exists J', J' ∈ concat F /\ iid J' = r.
Proof.
  unfold closed. rewrite forallb_forall. split.
  - intros H J r HJ%list_elem_of_In Hr%list_elem_of_In.
    specialize (H J HJ). rewrite forallb_forall in H.
    by apply definedIn_spec, (H (VInst r)).
  - intros H J HJ%list_elem_of_In. apply forallb_forall.
    intros [r| |] Hv%list_elem_of_In; try done.
    apply definedIn_spec. eauto.
Qed.

Lemma operands_redirect (m : nat) (new : Value) (J : Instruction) :
  operands (redirect m new J) = map (substValue m new) (operands J).
Proof. by destruct J. Qed.

Lemma substValue_inst (m : nat) (new : Value) (v : Value) (r : nat) :
  substValue m new v = VInst r ->
  (v = VInst m /\ new = VInst r) \/ (v = VInst r /\ r <> m).
Proof.
  destruct v as [r0| |]; simpl; try done.
  destruct (decide (r0 = m)) as [->|Hne]; [by left|].
  intros [= ->]. by right.
Qed.

Lemma visit_closed (b i : nat) (st : PassState) :
  closed (fn st) = true -> closed (fn (visit b i st).1) = true.
Proof.
  intros Hcl.
  destruct (visit_cases b i st) as [[-> _]|(m & ty & lhs & w & c & HI & Hp)];
    [done|].
  destruct (visit_rewrite_members _ _ _ _ _ _ _ _ HI Hp)
    as (Hback & Hfwd & Hnew & _ & _).
  rewrite closed_spec in Hcl. apply closed_spec.
  set (new := CreateShl_result (nextId st) lhs c) in *.
  assert (HMul : BinaryOperator m Mul ty lhs (VConst (ConstantInt w c))
                   ∈ concat (fn st)) by (apply elem_of_function; eauto).
  (* an operand of the old function, after the redirection *)
  assert (Hop : forall Jo v r, Jo ∈ concat (fn st) -> v ∈ operands Jo ->
            substValue m new v = VInst r ->
            exists J', J' ∈ concat (fn (visit b i st).1) /\ iid J' = r).
  { intros Jo v r HJo Hv [[-> Hn]|[-> Hne]]%substValue_inst.
    - assert (Hc : isConstant lhs = false).
      { unfold new, CreateShl_result in Hn. by destruct lhs. }
      eexists. split; [by apply Hnew|].
      unfold new in Hn. rewrite CreateShl_result_inst in Hn by done.
      injection Hn as ->. done.
    - destruct (Hcl Jo r HJo Hv) as (J' & HJ' & Hid).
      exists (redirect m new J'). split; [|by destruct J'].
      apply Hfwd; [done|congruence]. }
  intros J1 r [[Hc ->]|(Jo & HJo & ->)]%Hback Hr.
  - simpl in Hr. apply elem_of_cons in Hr as [Hr|Hr].
    + apply (Hop _ lhs r HMul); [|done]. apply elem_of_cons. by left.
    + apply elem_of_cons in Hr as [Hr|Hr]; [done|by apply elem_of_nil in Hr].
  - rewrite operands_redirect in Hr.
    apply (list_elem_of_fmap_1 (substValue m new)) in Hr as (v & Hr & Hv).
    by apply (Hop Jo v r).
Qed.

Lemma run_closed (F : Function) :
  closed F = true -> closed (fn (run F)) = true.
Proof.
  intros H. apply (run_invariant (fun st => closed (fn st) = true)); [done|].
  intros b i st. apply visit_closed.
Qed.

(** C6 (as amended): when every operand of the function refers to an
    instruction that is in the function, the same holds after the pass:
    no operand refers to an erased value.  In a function with distinct
    identities in which no multiply of the rewrite class has a Constant
    first operand, every operand that referred to a rewritten multiply
    refers to the shl that stands in its place ([s] sends the one to the
    other). *)
Theorem C6_no_dangling_reference (F : Function) :
  closed F = true ->
  closed (fn (run F)) = true /\
  (uniqueIds F = true -> noFoldSite F = true ->
   exists s : nat -> nat,
     fn (run F) = mapFunction (rewriteWith s) F /\
     forall b i J, getInst F b i = Some J -> isRewriteSite J = true ->
       (exists ty lhs rhs,
          getInst (fn (run F)) b i =
            Some (BinaryOperator (s (iid J)) Shl ty lhs rhs)) /\
       (forall b' i' J', getInst (fn (run F)) b' i' = Some J' ->
          VInst (iid J) ∉ operands J')).
Proof.
  intros Hcl. split; [by apply run_closed|]. intros HU HN.
  destruct (run_rewriteWith F HU HN) as (s & Hrun & HA & HS).
  exists s. split; [done|]. intros b i J HJ Hs.
  pose proof Hs as (m & ty & lhs & w & c & -> & Hp)%isRewriteSite_inv.
  split.
  - exists ty, (renameValue s lhs), (VConst (getInt32 (exactLogBase2 c))).
    rewrite Hrun, getInst_rewriteWith, HJ. simpl. by rewrite Hp.
  - intros b' i' J' H'. rewrite Hrun, getInst_rewriteWith in H'.
    destruct (getInst F b' i') as [Jo|] eqn:HJo; [|done].
    injection H' as <-. simpl.
    intros [Hc|(v & Hv & E)]%operands_rewriteWith; [done|].
    destruct v as [r| |]; try done. simpl in E. injection E as E.
    assert (Hm : (m < fresh F)%nat) by apply (iid_lt_fresh _ _ _ _ HJ).
    destruct (HA r) as [E'|E']; [|lia].
    assert (r = m) as -> by congruence.
    revert E'. apply HS. exists b, i. eexists. by split; [exact HJ|].
Qed.

Lemma C6_witness :
  closed twoSiteBody = true /\ closed (fn (run twoSiteBody)) = true.
Proof.
  split; [reflexivity|].
  exact (proj1 (C6_no_dangling_reference twoSiteBody eq_refl)).
Defined.

(** C6 (as stated) fails in its second half when the builder folds: in
    { %0 = mul i32 3, 4 ; use %0 } the use of the erased multiply is
    redirected to the constant 12; there is no shl for it to refer to. *)
Lemma C6_counterexample :
  getInst constMulBody 0 1 = Some (OtherInst 1 0 0 [VInst 0]) /\
  getInst (fn (run constMulBody)) 0 0 = Some (OtherInst 1 0 0 [CI i32 12]) /\
  ~ exists b i n ty lhs rhs,
      getInst (fn (run constMulBody)) b i =
        Some (BinaryOperator n Shl ty lhs rhs).
Proof.
  repeat split; try reflexivity.
  intros (b & i & n & ty & lhs & rhs & H).
  change (fn (run constMulBody)) with [[ OtherInst 1 0 0 [CI i32 12] ]] in H.
  destruct b as [|[|b]], i as [|[|i]]; discriminate H.
Qed.

(** ** Running the pass again *)

Lemma isFoldSite_renameInst (s : nat -> nat) (J : Instruction) :
  isFoldSite (renameInst s J) = isFoldSite J.
Proof.
  destruct J as [m op ty lhs rhs|]; [|done].
  destruct op; try done. by destruct lhs, rhs.
Qed.

Lemma isFoldSite_site (J : Instruction) :
  isFoldSite J = true -> isRewriteSite J = true.
Proof.
  destruct J as [m op ty lhs rhs|]; [|done].
  destruct op; try done. by destruct lhs, rhs as [| |[]].
Qed.

(** Without folding, what the cursor has passed holds no multiply of the
    rewrite class, and none can appear behind it. *)
Lemma run_leaves_no_site (F : Function) :
  noFoldSite F = true -> hasSite (fn (run F)) = false.
Proof.
  intros HN.
  pose (Q := fun (b i : nat) (st : PassState) =>
    noFoldSite (fn st) = true /\
    forall b' i' J, getInst (fn st) b' i' = Some J -> before b i b' i' ->
      isRewriteSite J = false).
  destruct (run_ind Q F) as [[_ HQ] HL].
  - split; [done|]. intros b' i' J _ Hb. unfold before in Hb. lia.
  - intros b i st _ _ Hi [HNs Hv].
    destruct (visit_cases b i st) as [[-> Hn]|(m & ty & lhs & w & c & HI & Hp)].
    + split; [done|]. simpl.
      intros b' i' J HJ [Hbe|[-> ->]]%before_next_inst; [by eapply Hv|by apply Hn].
    + assert (Hc : isConstant lhs = false).
      { pose proof (proj1 (noFoldSite_spec _) HNs _ _ _ HI) as Hf.
        simpl in Hf. destruct lhs; try done. by rewrite Hp in Hf. }
      destruct (visit_shl_positions _ _ _ _ _ _ _ _ HI Hp Hc)
        as (F' & -> & _ & _ & HP). simpl. split.
      * apply noFoldSite_spec. intros b' i' J HJ. rewrite HP in HJ.
        destruct (decide (b' = b /\ i' = i)); [by injection HJ as <-|].
        destruct (getInst (fn st) b' i') as [Jo|] eqn:Ho; [|done].
        injection HJ as <-. rewrite isFoldSite_renameInst.
        by eapply (proj1 (noFoldSite_spec _) HNs).
      * intros b' i' J HJ Hbe. rewrite HP in HJ.
        destruct (decide (b' = b /\ i' = i)) as [|Hne]; [by injection HJ as <-|].
        destruct (getInst (fn st) b' i') as [Jo|] eqn:Ho; [|done].
        injection HJ as <-. rewrite isRewriteSite_renameInst.
        apply (Hv b' i'); [done|].
        apply before_next_inst in Hbe as [Hbe|[-> ->]]; [done|tauto].
  - intros b st _ _ [HNs Hv]. split; [done|].
    intros b' i' J HJ Hbe. apply (Hv b' i' J HJ).
    apply (before_next_block b (length (getBlock (fn st) b))) in Hbe; [done|].
    intros ->. by destruct (getInst_lt _ _ _ _ HJ).
  - apply hasSite_false. intros b i J HJ. apply (HQ b i J HJ).
    left. rewrite <- HL. by destruct (getInst_lt _ _ _ _ HJ).
Qed.

(** C5 (as amended): for a function in which no multiply of the rewrite
    class has a Constant first operand, a second run of the pass on the
    result of the first returns that result unchanged and reports no
    modification. *)
Theorem C5_idempotent_without_folding (F : Function) :
  noFoldSite F = true ->
  fn (run (fn (run F))) = fn (run F) /\ Modified (run (fn (run F))) = false.
Proof.
  intros HN. pose proof (run_leaves_no_site F HN) as Hno.
  destruct (run_flag (fn (run F))) as [(_ & HS & _)|(HM & HF & _)];
    [congruence|done].
Qed.

Lemma C5_witness :
  noFoldSite twoSiteBody = true /\
  fn (run (fn (run twoSiteBody))) = fn (run twoSiteBody) /\
  Modified (run (fn (run twoSiteBody))) = false.
Proof.
  split; [reflexivity|].
  exact (C5_idempotent_without_folding twoSiteBody eq_refl).
Defined.

(** C5 (as stated) fails when the builder folds.  In [layoutBody] the
    block that uses %0 comes before the block that defines it as
    [mul i32 1, 4].  The first run visits [%1 = mul i32 %x, %0] before %0
    is folded to the constant 4, so it leaves [%1 = mul i32 %x, 4]; the
    second run rewrites that multiply and reports a modification. *)
Lemma C5_counterexample :
  uniqueIds layoutBody = true /\ closed layoutBody = true /\
  getInst (fn (run layoutBody)) 1 0 =
    Some (BinaryOperator 1 Mul i32 (VArg 0) (CI i32 4)) /\
  Modified (run (fn (run layoutBody))) = true /\
  fn (run (fn (run layoutBody))) <> fn (run layoutBody).
Proof. repeat split; try reflexivity. discriminate. Qed.

(** ** Multiplying by a power of two is shifting *)

Lemma log2_lt_width (c ty : Z) :
  isPowerOf2 c = true -> c < 2 ^ ty -> 0 <= Z.log2 c < ty.
Proof.
  intros Hp Hc. destruct (isPowerOf2_exact c Hp) as [Hk Hpow].
  split; [done|].
  destruct (Z_lt_le_dec (Z.log2 c) ty) as [|Hge]; [done|exfalso].
  destruct (Z_lt_le_dec ty 0) as [Hneg|Hpos].
  - rewrite (Z.pow_neg_r 2 ty Hneg) in Hc.
    pose proof (Z.pow_pos_nonneg 2 (Z.log2 c)). lia.
  - pose proof (Z.pow_le_mono_r 2 ty (Z.log2 c)). lia.
Qed.

Lemma mulSem_shlSem (ty c : Z) (x : option Z) :
  isPowerOf2 c = true -> c < 2 ^ ty ->
  mulSem ty x (Some c) = shlSem ty x (Some (Z.log2 c)).
Proof.
  intros Hp Hc. destruct (log2_lt_width c ty Hp Hc) as [H0 H1].
  destruct (isPowerOf2_exact c Hp) as [_ Hpow].
  destruct x as [a|]; simpl; [|done].
  replace ((0 <=? Z.log2 c) && (Z.log2 c <? ty)) with true.
  - by rewrite <- Hpow.
  - symmetry. apply andb_true_intro. split; [by apply Z.leb_le|by apply Z.ltb_lt].
Qed.

(** a multiply with flags that is not poison has the value of the
    multiply without flags *)
Lemma mulNoWrap_mulSem (nuw nsw : bool) (ty : Z) (x y : option Z) (v : Z) :
  mulNoWrap nuw nsw ty x y = Some v -> mulSem ty x y = Some v.
Proof.
  destruct x as [a|], y as [c|]; simpl; try done.
  by destruct (_ || _).
Qed.

Lemma iid_redirect m new J : iid (redirect m new J) = iid J.
Proof. by destruct J. Qed.

Lemma elem_of_mapFunction (f : Instruction -> Instruction) (F : Function)
    (J' : Instruction) :
  J' ∈ concat (mapFunction f F) <-> exists J, J ∈ concat F /\ J' = f J.
Proof.
  rewrite elem_of_function. split.
  - intros (b & i & H). rewrite getInst_mapFunction in H.
    destruct (getInst F b i) as [J|] eqn:E; [|done].
    injection H as <-. exists J. split; [|done].
    apply elem_of_function. eauto.
  - intros (J & (b & i & E)%elem_of_function & ->).
    exists b, i. by rewrite getInst_mapFunction, E.
Qed.

Lemma typedOperand_renameValue (s : nat -> nat) (ty : Z) (v : Value) :
  typedOperand ty (renameValue s v) = typedOperand ty v.
Proof. by destruct v. Qed.

Lemma i32Sites_spec (F : Function) (J : Instruction) :
  i32Sites F = true -> J ∈ concat F -> i32Site J = true.
Proof.
  unfold i32Sites. rewrite forallb_forall.
  intros H (blk & Hblk & HJ)%list_elem_of_In%in_concat.
  specialize (H _ Hblk). rewrite forallb_forall in H. by apply H.
Qed.

Lemma transport_spec (s : nat -> nat) (n : nat) (rho : nat -> option Z)
    (r : nat) :
  (forall r1 r2, (r1 < n)%nat -> (r2 < n)%nat -> s r1 = s r2 -> r1 = r2) ->
  (r < n)%nat -> transport s n rho (s r) = rho r.
Proof.
  intros Hinj Hr. unfold transport.
  destruct (find _ _) as [r0|] eqn:E.
  - apply find_some in E as [Hin E]. apply Nat.eqb_eq in E.
    apply in_seq in Hin. f_equal. apply Hinj; [lia|done|done].
  - apply find_none with (x := r) in E; [|apply in_seq; lia].
    by rewrite Nat.eqb_refl in E.
Qed.

(** ** The values are kept *)

Section Preservation.

Variable argVal : nat -> option Z.
Variable constVal : Z -> nat -> option Z.
Variable binSem : BinaryOps -> Z -> option Z -> option Z -> option Z.
Variable otherSem : nat -> Z -> list (option Z) -> option Z -> bool.

Local Abbreviation evalV := (evalValue argVal constVal).
Local Abbreviation sat := (satisfies argVal constVal binSem otherSem).
Local Abbreviation mods := (models argVal constVal binSem otherSem).

Lemma evalValue_renameValue (s : nat -> nat) (rho : nat -> option Z)
    (v : Value) :
  evalV rho (renameValue s v) = evalV (fun r => rho (s r)) v.
Proof. by destruct v. Qed.

(** the value of an instruction depends on the values of its operands
    and on its own only *)
Lemma satisfies_ext (rho1 rho2 : nat -> option Z) (J : Instruction) :
  rho1 (iid J) = rho2 (iid J) ->
  (forall r, VInst r ∈ operands J -> rho1 r = rho2 r) ->
  sat rho1 J -> sat rho2 J.
Proof.
  intros Hid Hop.
  assert (Hv : forall v, v ∈ operands J -> evalV rho1 v = evalV rho2 v).
  { intros [r| |] Hv; simpl; [by apply Hop|done|done]. }
  destruct J as [m op ty lhs rhs|m opc ty ops]; simpl in *.
  - intros (H1 & H2 & H3). split; [done|]. split; [done|].
    rewrite <- Hid, H3. f_equal; apply Hv.
    + apply elem_of_cons. by left.
    + apply elem_of_cons. right. apply elem_of_cons. by left.
  - intros <-. rewrite <- Hid. f_equal. symmetry.
    apply map_ext_in. intros v Hin%list_elem_of_In. by apply Hv.
Qed.

(** an instruction whose uses are redirected along [s] *)
Lemma satisfies_renameInst (s : nat -> nat) (rho : nat -> option Z)
    (J : Instruction) :
  s (iid J) = iid J ->
  sat rho (renameInst s J) <-> sat (fun r => rho (s r)) J.
Proof.
  intros E. destruct J as [m op ty lhs rhs|m opc ty ops]; simpl in *.
  - by rewrite !typedOperand_renameValue, !evalValue_renameValue, E.
  - rewrite E, map_map.
    assert (map (fun v => evalV rho (renameValue s v)) ops =
            map (evalV (fun r => rho (s r))) ops) as ->; [|done].
    apply map_ext. intros v. apply evalValue_renameValue.
Qed.

(** the shl that replaces an i32 multiply by 2^k has the value of the
    multiply *)
Lemma satisfies_rewriteWith_site (s : nat -> nat) (rho : nat -> option Z)
    (m : nat) (lhs : Value) (c : Z) :
  isPowerOf2 c = true -> c < 2 ^ 32 ->
  sat rho (rewriteWith s
             (BinaryOperator m Mul 32 lhs (VConst (ConstantInt 32 c)))) <->
  sat (fun r => rho (s r))
    (BinaryOperator m Mul 32 lhs (VConst (ConstantInt 32 c))).
Proof.
  intros Hp Hc. destruct (log2_lt_width c 32 Hp Hc) as [Hk0 Hk1].
  assert (H32 : 32 < 2 ^ 32) by reflexivity.
  assert (Hpos : 0 < c).
  { unfold isPowerOf2 in Hp. apply andb_true_iff in Hp as [Hp _].
    by apply Z.ltb_lt. }
  assert (Tk : typedOperand 32 (VConst (ConstantInt 32 (Z.log2 c))) = true).
  { unfold typedOperand. cbn [constType].
    apply andb_true_intro. split; [done|].
    apply andb_true_intro. split; [apply Z.leb_le|apply Z.ltb_lt]; lia. }
  assert (Tc : typedOperand 32 (VConst (ConstantInt 32 c)) = true).
  { unfold typedOperand. cbn [constType].
    apply andb_true_intro. split; [done|].
    apply andb_true_intro. split; [apply Z.leb_le|apply Z.ltb_lt]; lia. }
  cbn [rewriteWith]. rewrite Hp, getInt32_log2 by (done || lia).
  cbn [satisfies evalBin]. rewrite Tk, Tc.
  rewrite typedOperand_renameValue, evalValue_renameValue.
  cbn [evalValue evalConst].
  by rewrite (mulSem_shlSem 32 c _ Hp Hc).
Qed.

(** the evaluations of the rewritten function are those of the input,
    read along [s] *)
Lemma models_rewriteWith (F : Function) (s : nat -> nat)
    (rho : nat -> option Z) :
  uniqueIds F = true -> i32Sites F = true ->
  (forall r, s r <> r <->
     exists b i J, getInst F b i = Some J /\ iid J = r /\
                   isRewriteSite J = true) ->
  mods rho (mapFunction (rewriteWith s) F) <-> mods (fun r => rho (s r)) F.
Proof.
  intros HU HT HS.
  assert (Hstep : forall J, J ∈ concat F ->
            sat rho (rewriteWith s J) <-> sat (fun r => rho (s r)) J).
  { intros J HJ. destruct (isRewriteSite J) eqn:Hs.
    - destruct (isRewriteSite_inv J Hs) as (m & ty & lhs & w & c & -> & Hp).
      pose proof (i32Sites_spec F _ HT HJ) as Hi.
      cbn [i32Site] in Hi. rewrite Hp in Hi. cbn [negb orb] in Hi.
      apply andb_true_iff in Hi as [[Hty Hw]%andb_true_iff Hc].
      apply Z.eqb_eq in Hty, Hw. apply Z.ltb_lt in Hc. subst ty w.
      by apply satisfies_rewriteWith_site.
    - rewrite rewriteWith_other by done. apply satisfies_renameInst.
      destruct (decide (s (iid J) = iid J)) as [|Hne]; [done|exfalso].
      apply HS in Hne as (b & i & J' & HJ' & Hid & Hs').
      apply elem_of_function in HJ as (b0 & i0 & HJ0).
      destruct (uniqueIds_positions F _ _ _ _ _ _ HU HJ' HJ0 Hid) as [-> ->].
      congruence. }
  split.
  - intros Hm J HJ. apply Hstep; [done|]. apply Hm.
    apply elem_of_mapFunction. eauto.
  - intros Hm J' (J & HJ & ->)%elem_of_mapFunction.
    apply Hstep; [done|]. by apply Hm.
Qed.

(** C2 (as amended): in a function with distinct identities in which
    every multiply of the rewrite class is an i32 multiply by a 32-bit
    constant and has a first operand that is not a Constant, the pass
    puts the shl [shl i32 lhs, log2 c] at the place of each such multiply
    [mul i32 lhs, c] and redirects every use of the multiply to that shl
    ([s] sends the identity of the multiply to the new identity of the
    shl); no other instruction changes otherwise.  In wrap-around
    arithmetic modulo 2^32, whatever the inputs [argVal]: the shl takes
    the value [lhs * c mod 2^32] of the multiply; the evaluations of the
    rewritten function are exactly the evaluations of the input read
    along [s]; and every evaluation of the input gives one of the
    rewritten function in which each shl has the value its multiply had
    and every other instruction keeps its value.  The values are those
    of the claim, integers modulo 2^w.  The nsw and nuw flags, which the
    pass neither reads nor sets, are not part of the embedding; whatever
    flags the multiply carried, if it was not poison the shl has its
    value. *)
Theorem C2_values_preserved (F : Function) :
  uniqueIds F = true -> noFoldSite F = true -> i32Sites F = true ->
  exists s : nat -> nat,
    fn (run F) = mapFunction (rewriteWith s) F /\
    (forall r, s r <> r <->
       exists b i J, getInst F b i = Some J /\ iid J = r /\
                     isRewriteSite J = true) /\
    (forall b i m ty lhs w c,
       getInst F b i =
         Some (BinaryOperator m Mul ty lhs (VConst (ConstantInt w c))) ->
       isPowerOf2 c = true ->
       getInst (fn (run F)) b i =
         Some (BinaryOperator (s m) Shl ty (renameValue s lhs)
                 (VConst (ConstantInt 32 (Z.log2 c)))) /\
       (fresh F <= s m)%nat /\
       forall rho', mods rho' (fn (run F)) ->
         rho' (s m) = mulSem ty (evalV rho' (renameValue s lhs)) (Some c) /\
         forall nuw nsw v,
           mulNoWrap nuw nsw ty (evalV rho' (renameValue s lhs)) (Some c) =
             Some v ->
           rho' (s m) = Some v) /\
    (forall b i J,
       getInst F b i = Some J -> isRewriteSite J = false ->
       getInst (fn (run F)) b i = Some (renameInst s J)) /\
    (forall rho', mods rho' (fn (run F)) <-> mods (fun r => rho' (s r)) F) /\
    (forall rho, mods rho F ->
       exists rho', mods rho' (fn (run F)) /\
                    forall r, (r < fresh F)%nat -> rho' (s r) = rho r).
Proof.
  intros HU HN HT.
  destruct (run_rewriteWith_inj F HU HN) as (s & Hrun & HA & HS & HI).
  assert (Hiff : forall rho',
            mods rho' (fn (run F)) <-> mods (fun r => rho' (s r)) F).
  { intros rho'. rewrite Hrun. by apply models_rewriteWith. }
  exists s. split; [done|]. split; [done|]. split; [|split; [|split]].
  - intros b i m ty lhs w c HJ Hp.
    assert (HJc : BinaryOperator m Mul ty lhs (VConst (ConstantInt w c))
                    ∈ concat F) by (apply elem_of_function; eauto).
    pose proof (i32Sites_spec F _ HT HJc) as Hi.
    cbn [i32Site] in Hi. rewrite Hp in Hi. cbn [negb orb] in Hi.
    apply andb_true_iff in Hi as [[Hty Hw]%andb_true_iff Hc].
    apply Z.eqb_eq in Hty, Hw. apply Z.ltb_lt in Hc. subst ty w.
    destruct (log2_lt_width c 32 Hp Hc) as [Hk0 Hk1].
    assert (H32 : 32 < 2 ^ 32) by reflexivity.
    assert (Hout : getInst (fn (run F)) b i =
              Some (BinaryOperator (s m) Shl 32 (renameValue s lhs)
                      (VConst (ConstantInt 32 (Z.log2 c))))).
    { rewrite Hrun, getInst_rewriteWith, HJ. simpl. rewrite Hp.
      by rewrite getInt32_log2 by (done || lia). }
    split; [done|]. split.
    + destruct (HA m) as [E|E]; [|done]. exfalso. revert E. apply HS.
      exists b, i. eexists. split; [exact HJ|]. by split.
    + intros rho' Hm.
      assert (Hin : BinaryOperator (s m) Shl 32 (renameValue s lhs)
                      (VConst (ConstantInt 32 (Z.log2 c)))
                      ∈ concat (fn (run F))) by (apply elem_of_function; eauto).
      destruct (Hm _ Hin) as (_ & _ & Hv). cbn [evalBin] in Hv.
      assert (E : rho' (s m) =
                mulSem 32 (evalV rho' (renameValue s lhs)) (Some c)).
      { rewrite Hv. cbn [evalValue evalConst].
        by rewrite (mulSem_shlSem 32 c _ Hp Hc). }
      split; [done|]. intros nuw nsw v Hnw.
      rewrite E. by apply (mulNoWrap_mulSem nuw nsw).
  - intros b i J HJ Hs.
    rewrite Hrun, getInst_rewriteWith, HJ. simpl.
    by rewrite rewriteWith_other.
  - done.
  - intros rho Hm. exists (transport s (fresh F) rho).
    assert (Hinj : forall r1 r2, (r1 < fresh F)%nat -> (r2 < fresh F)%nat ->
              s r1 = s r2 -> r1 = r2).
    { intros r1 r2 H1 H2 E.
      destruct (decide (s r1 = r1)) as [E1|E1], (decide (s r2 = r2)) as [E2|E2].
      - congruence.
      - destruct (HA r2) as [?|?]; [done|]. lia.
      - destruct (HA r1) as [?|?]; [done|]. lia.
      - by apply HI. }
    assert (Hval : forall r, (r < fresh F)%nat ->
              transport s (fresh F) rho (s r) = rho r).
    { intros r Hr. by apply transport_spec. }
    split; [|done]. apply Hiff. intros J HJ.
    destruct (maxId_ge F J HJ) as [Hid Hop].
    apply (satisfies_ext rho); [| |by apply Hm].
    + symmetry. apply Hval. unfold fresh. lia.
    + intros r Hr. symmetry. apply Hval. specialize (Hop _ Hr).
      simpl in Hop. unfold fresh. lia.
Qed.

End Preservation.

(** In the tutorial's example, with %x = 3, the use of the multiply now
    reads the shl, which evaluates to 12. *)
Lemma C2_witness :
  uniqueIds tutorialBody = true /\ noFoldSite tutorialBody = true /\
  i32Sites tutorialBody = true /\
  models exArg exConst exBin exOther exRho tutorialBody /\
  exists (s : nat -> nat) (rho' : nat -> option Z),
    getInst (fn (run tutorialBody)) 0 1 =
      Some (OtherInst 1 0 0 [VInst (s 0%nat)]) /\
    models exArg exConst exBin exOther rho' (fn (run tutorialBody)) /\
    rho' (s 0%nat) = Some 12.
Proof.
  assert (Hm : models exArg exConst exBin exOther exRho tutorialBody).
  { intros J HJ. apply list_elem_of_In in HJ. simpl in HJ.
    destruct HJ as [<-|[<-|[]]]; [|reflexivity].
    split; [reflexivity|]. split; reflexivity. }
  split; [reflexivity|]. split; [reflexivity|]. split; [reflexivity|].
  split; [exact Hm|].
  destruct (C2_values_preserved exArg exConst exBin exOther tutorialBody
              eq_refl eq_refl eq_refl) as (s & _ & _ & _ & Hother & _ & Hex).
  destruct (Hex exRho Hm) as (rho' & Hm' & Hval).
  exists s, rho'. split; [|split].
  - exact (Hother 0%nat 1%nat _ eq_refl eq_refl).
  - exact Hm'.
  - apply (Hval 0%nat). unfold fresh. simpl. lia.
Defined.

(** C2 (as stated) fails in two ways.  When the first operand of the
    multiply is a Constant the builder folds: in { %0 = mul i32 3, 4 ;
    use of %0 }, which has an evaluation, the pass rewrites the multiply
    and its former use reads the constant 12; the result holds no shl.
    When the multiply is not an i32 multiply the shift amount has
    another type than the shl: { %0 = mul i64 %x, 8 ; use of %0 } has an
    evaluation for %x = 3, and the result, [shl i64 %x, i32 3], has
    none. *)
Lemma C2_counterexample :
  (models exArg exConst exBin exOther exRho constMulBody /\
   Modified (run constMulBody) = true /\
   fn (run constMulBody) = [[ OtherInst 1 0 0 [CI i32 12] ]] /\
   ~ exists b i n ty lhs rhs,
       getInst (fn (run constMulBody)) b i =
         Some (BinaryOperator n Shl ty lhs rhs)) /\
  (models exArg exConst exBin exOther exRhoWide wideBody /\
   Modified (run wideBody) = true /\
   fn (run wideBody) =
     [[ BinaryOperator 2 Shl 64 (VArg 0) (CI 32 3);
        OtherInst 1 0 0 [VInst 2] ]] /\
   forall rho', ~ models exArg exConst exBin exOther rho' (fn (run wideBody))).
Proof.
  split.
  - split; [|split; [reflexivity|split; [reflexivity|]]].
    + intros J HJ. apply list_elem_of_In in HJ. simpl in HJ.
      destruct HJ as [<-|[<-|[]]]; [|reflexivity].
      split; [reflexivity|]. split; reflexivity.
    + intros (b & i & n & ty & lhs & rhs & H).
      change (fn (run constMulBody)) with [[ OtherInst 1 0 0 [CI i32 12] ]] in H.
      destruct b as [|[|b]], i as [|[|i]]; discriminate H.
  - split; [|split; [reflexivity|split; [reflexivity|]]].
    + intros J HJ. apply list_elem_of_In in HJ. simpl in HJ.
      destruct HJ as [<-|[<-|[]]]; [|reflexivity].
      split; [reflexivity|]. split; reflexivity.
    + intros rho' Hm.
      assert (H : BinaryOperator 2 Shl 64 (VArg 0) (CI 32 3)
                    ∈ concat (fn (run wideBody))).
      { apply list_elem_of_In. simpl. by left. }
      destruct (Hm _ H) as (_ & Ht & _). discriminate Ht.
Qed.

(** In the tutorial's example the new shl evaluates to 3 * 4. *)
Example tutorial_shl_value (rho' : nat -> option Z) :
  models exArg exConst exBin exOther rho' (fn (run tutorialBody)) ->
  rho' 2%nat = Some 12.
Proof.
  intros Hm.
  assert (H : BinaryOperator 2 Shl i32 (VArg 0) (CI i32 2)
                ∈ concat (fn (run tutorialBody))).
  { apply list_elem_of_In. simpl. by left. }
  exact (proj2 (proj2 (Hm _ H))).
Qed.

(** * Further properties of the pass *)

(** ** The rewrite class *)

(** X1: on a constant of width [w] >= 1 (an APInt holds 0 <= c < 2^w) the test
    of the rewrite class, APInt::isPowerOf2, accepts exactly the values
    2^k with 0 <= k < w, and exactLogBase2 then returns that k; on any
    other value exactLogBase2 returns -1.  The pattern with only the sign
    bit set is accepted (log w-1), zero is not. *)
Theorem X1_power_of_two_test (w c : Z) :
  0 < w -> 0 <= c < 2 ^ w ->
  (isPowerOf2 c = true <-> exists k, 0 <= k < w /\ c = 2 ^ k) /\
  (forall k, 0 <= k < w -> c = 2 ^ k -> exactLogBase2 c = k) /\
  (isPowerOf2 c = false -> exactLogBase2 c = -1) /\
  isPowerOf2 (2 ^ (w - 1)) = true /\ exactLogBase2 (2 ^ (w - 1)) = w - 1 /\
  isPowerOf2 0 = false.
Proof.
  intros Hw [Hc0 Hcw].
  assert (Hlog : forall k, 0 <= k -> exactLogBase2 (2 ^ k) = k).
  { intros k Hk. rewrite exactLogBase2_pow2 by (by apply isPowerOf2_pow).
    by apply Z.log2_pow2. }
  repeat split.
  - intros Hp. exists (Z.log2 c).
    destruct (log2_lt_width c w Hp Hcw). split; [done|].
    by apply isPowerOf2_exact.
  - intros (k & [Hk _] & ->). by apply isPowerOf2_pow.
  - intros k [Hk _] ->. by apply Hlog.
  - unfold exactLogBase2. by intros ->.
  - apply isPowerOf2_pow. lia.
  - apply Hlog. lia.
Qed.

Lemma X1_witness :
  0 < 32 /\ 0 <= 2147483648 < 2 ^ 32 /\
  (isPowerOf2 2147483648 = true <->
   exists k, 0 <= k < 32 /\ 2147483648 = 2 ^ k).
Proof.
  assert (H : 0 <= 2147483648 < 2 ^ 32) by (split; [discriminate|reflexivity]).
  split; [reflexivity|]. split; [exact H|].
  exact (proj1 (X1_power_of_two_test 32 2147483648 eq_refl H)).
Defined.

(** ** The traversal *)

Lemma runBlock_S (rem b i : nat) (st : PassState) :
  runBlock (S rem) b i st =
    runBlock rem b (visit b i st).2 (visit b i st).1.
Proof. simpl. by destruct (visit b i st). Qed.

(** X2: the inner loop, run with its own test [I != E], terminates even
    though its body inserts and erases under the cursor: from position
    [i] it makes exactly as many iterations as there are instructions
    between the cursor and the end of the block, and any larger fuel
    gives the same state. *)
Theorem X2_inner_loop_terminates (fuel b i : nat) (st : PassState) :
  (length (getBlock (fn st) b) - i <= fuel)%nat ->
  innerLoop fuel b i st =
    Some (runBlock (length (getBlock (fn st) b) - i) b i st).
Proof.
  revert i st. induction fuel as [|fuel IH]; intros i st Hf.
  - simpl. rewrite decide_False by lia.
    by replace (length (getBlock (fn st) b) - i)%nat with 0%nat by lia.
  - simpl. destruct (decide (i < length (getBlock (fn st) b))%nat) as [Hi|Hi].
    + pose proof (visit_cursor b i st Hi) as (_ & Hc & _).
      replace (length (getBlock (fn st) b) - i)%nat
        with (S (length (getBlock (fn (visit b i st).1) b) - (visit b i st).2))
        by lia.
      rewrite runBlock_S. destruct (visit b i st) as [st' i'] eqn:E.
      simpl in *. apply IH. lia.
    + by replace (length (getBlock (fn st) b) - i)%nat with 0%nat by lia.
Qed.

Lemma X2_witness :
  (length (getBlock (fn (mkState twoSiteBody false 4)) 0) - 0 <= 5)%nat /\
  innerLoop 5 0 0 (mkState twoSiteBody false 4) =
    Some (runBlock 2 0 0 (mkState twoSiteBody false 4)).
Proof.
  assert (H : (length (getBlock (fn (mkState twoSiteBody false 4)) 0) - 0
               <= 5)%nat) by (simpl; lia).
  split; [exact H|].
  exact (X2_inner_loop_terminates 5 0 0 (mkState twoSiteBody false 4) H).
Defined.

(** ** Sizes on every input *)

Lemma visit_cursor_step (b i : nat) (st : PassState) :
  ((visit b i st).2 <= S i)%nat.
Proof.
  destruct (visit_cases b i st) as [[-> _]|(m & ty & lhs & w & c & HI & Hp)];
    [simpl; lia|].
  destruct (isConstant lhs) eqn:Hc.
  - destruct lhs as [| |LC]; try done.
    destruct (visit_fold _ _ _ _ _ _ _ _ HI Hp) as (F' & -> & _). simpl. lia.
  - destruct (visit_shl _ _ _ _ _ _ _ _ HI Hp Hc) as (F' & -> & _). simpl. lia.
Qed.

Lemma sumBlocks_le (h : BasicBlock -> nat) (F F' : Function) :
  length F' = length F ->
  (forall b, (h (getBlock F' b) <= h (getBlock F b))%nat) ->
  (sumBlocks h F' <= sumBlocks h F)%nat.
Proof.
  revert F'. induction F as [|blk F IH]; intros [|blk' F'] HL Hb;
    simpl in *; try lia.
  pose proof (Hb 0%nat) as H0. unfold getBlock in H0. simpl in H0.
  assert (sumBlocks h F' <= sumBlocks h F)%nat; [|lia].
  apply IH; [lia|]. intros b. apply (Hb (S b)).
Qed.

(** X4: on every input the pass keeps the number of blocks, lengthens no
    block, and so never increases the number of instructions. *)
Theorem X4_blocks_never_grow (F : Function) :
  length (fn (run F)) = length F /\
  (forall b, (length (getBlock (fn (run F)) b) <= length (getBlock F b))%nat) /\
  (instCount (fn (run F)) <= instCount F)%nat.
Proof.
  destruct (run_ind (fun _ _ st =>
    forall b', (length (getBlock (fn st) b') <= length (getBlock F b'))%nat) F)
    as [HQ HL]; try done.
  - intros b i st _ _ Hi HQ b'.
    destruct (visit_cursor b i st Hi) as (_ & Hc & Hne).
    pose proof (visit_cursor_step b i st). specialize (HQ b').
    destruct (decide (b' = b)) as [->|Hb]; [lia|].
    rewrite Hne by done. done.
  - split; [done|]. split; [done|].
    by apply sumBlocks_le.
Qed.

(** ** Nothing of the rewrite class is left *)

(** X5: for a function in which no multiply of the rewrite class has a
    Constant first operand, the function the pass returns holds no
    multiply whose second operand is a power-of-two ConstantInt. *)
Theorem X5_no_site_left (F : Function) :
  noFoldSite F = true ->
  hasSite (fn (run F)) = false /\
  forall b i m ty lhs w c,
    getInst (fn (run F)) b i =
      Some (BinaryOperator m Mul ty lhs (VConst (ConstantInt w c))) ->
    isPowerOf2 c = false.
Proof.
  intros HN. pose proof (run_leaves_no_site F HN) as H.
  split; [done|]. intros b i m ty lhs w c HJ.
  rewrite hasSite_false in H. exact (H _ _ _ HJ).
Qed.

Lemma X5_witness :
  noFoldSite twoSiteBody = true /\ hasSite (fn (run twoSiteBody)) = false.
Proof.
  split; [reflexivity|].
  exact (proj1 (X5_no_site_left twoSiteBody eq_refl)).
Defined.

(** ** What the pass creates and what it keeps *)

Lemma redirected_refl (J : Instruction) : redirected J J.
Proof.
  exists (fun v => v). repeat split.
  destruct J as [|m opc ty ops]; simpl; [done|]. by rewrite map_id.
Qed.

Lemma redirected_redirect (m : nat) (new : Value) (J J' : Instruction) :
  redirected J J' -> redirected J (redirect m new J').
Proof.
  intros (f & Ha & Hc & ->). exists (fun v => substValue m new (f v)).
  repeat split.
  - intros a. by rewrite Ha.
  - intros c. by rewrite Hc.
  - unfold redirect. by rewrite mapOperands_compose.
Qed.

(** X3: on every input, an instruction of the function the pass returns
    is either an instruction of the input with some uses redirected (same
    identity, opcode, type and number of operands, arguments and constant
    operands untouched), or a new shl, of the type of a multiply of the
    input, whose shift amount is the 32-bit constant built from the
    logarithm of a power of two.  The pass creates nothing else. *)
Theorem X3_only_shifts_created (F : Function) (J' : Instruction) :
  J' ∈ concat (fn (run F)) ->
  (exists J, J ∈ concat F /\ redirected J J') \/
  ((fresh F <= iid J')%nat /\
   exists m ty lhs0 rhs0 lhs' c,
     BinaryOperator m Mul ty lhs0 rhs0 ∈ concat F /\
     isPowerOf2 c = true /\
     J' = BinaryOperator (iid J') Shl ty lhs'
            (VConst (getInt32 (exactLogBase2 c)))).
Proof.
  pose (shape := fun J1 : Instruction =>
    (exists J, J ∈ concat F /\ redirected J J1) \/
    ((fresh F <= iid J1)%nat /\
     exists m ty lhs0 rhs0 lhs' c,
       BinaryOperator m Mul ty lhs0 rhs0 ∈ concat F /\
       isPowerOf2 c = true /\
       J1 = BinaryOperator (iid J1) Shl ty lhs'
              (VConst (getInt32 (exactLogBase2 c))))).
  assert (HP : (fresh F <= nextId (run F))%nat /\
               forall J1, J1 ∈ concat (fn (run F)) -> shape J1).
  { apply (run_invariant (fun st =>
      (fresh F <= nextId st)%nat /\
      forall J1, J1 ∈ concat (fn st) -> shape J1)).
    - split; [simpl; lia|]. intros J1 HJ1. left. exists J1.
      split; [done|apply redirected_refl].
    - intros b i st [Hle Hsh].
      destruct (visit_cases b i st)
        as [[-> _]|(m & ty & lhs & w & c & HI & Hp)]; [done|].
      destruct (visit_rewrite_members _ _ _ _ _ _ _ _ HI Hp)
        as (Hback & _ & _ & _ & Hn).
      split; [rewrite Hn; destruct (isConstant lhs); lia|].
      intros J1 [[Hc ->]|(Jo & HJo & ->)]%Hback.
      + right. simpl. split; [done|].
        assert (HMul : BinaryOperator m Mul ty lhs (VConst (ConstantInt w c))
                         ∈ concat (fn st)) by (apply elem_of_function; eauto).
        destruct (Hsh _ HMul) as [(J0 & HJ0 & f & _ & _ & E)|(_ & H)].
        * destruct J0 as [m0 op0 ty0 l0 r0|]; [|done].
          simpl in E. injection E as <- <- <- _ _.
          exists m, ty, l0, r0. eexists. exists c. by split.
        * destruct H as (? & ? & ? & ? & ? & ? & _ & _ & E). done.
      + destruct (Hsh _ HJo) as [(J0 & HJ0 & Hr)|(Hid & H)].
        * left. exists J0. split; [done|]. by apply redirected_redirect.
        * right. rewrite iid_redirect. split; [done|].
          destruct H as (m0 & ty0 & l0 & r0 & lhs' & c0 & HM & Hp0 & E).
          exists m0, ty0, l0, r0. eexists. exists c0.
          split; [done|]. split; [done|].
          rewrite E at 1. simpl. done. }
  intros HJ'. by apply HP.
Qed.

Lemma X3_witness :
  BinaryOperator 4 Shl i32 (VArg 0) (CI i32 2) ∈ concat (fn (run twoSiteBody)) /\
  ((exists J, J ∈ concat twoSiteBody /\
              redirected J (BinaryOperator 4 Shl i32 (VArg 0) (CI i32 2))) \/
   (fresh twoSiteBody <= 4)%nat).
Proof.
  assert (H : BinaryOperator 4 Shl i32 (VArg 0) (CI i32 2)
                ∈ concat (fn (run twoSiteBody))).
  { apply list_elem_of_In. simpl. by left. }
  split; [exact H|].
  destruct (X3_only_shifts_created twoSiteBody _ H) as [HL|[HR _]];
    [left; exact HL|right; exact HR].
Defined.

(** ** The type of the shift amount *)

Lemma typedBinary_renameInst (s : nat -> nat) (J : Instruction) :
  typedBinary (renameInst s J) = typedBinary J.
Proof.
  destruct J as [m op ty lhs rhs|]; [|done].
  simpl. by rewrite !typedOperand_renameValue.
Qed.

Lemma typedOperand_getInt32 (ty k : Z) :
  typedOperand ty (VConst (getInt32 k)) = true <-> ty = 32.
Proof.
  unfold getInt32, typedOperand. cbn [constType]. split.
  - intros [H _]%andb_true_iff. apply Z.eqb_eq in H. done.
  - intros ->. pose proof (Z.mod_pos_bound k (2 ^ 32) eq_refl) as [H0 H1].
    apply andb_true_intro. split; [by apply Z.eqb_eq|].
    apply andb_true_intro. split; [by apply Z.leb_le|by apply Z.ltb_lt].
Qed.

(** X6: the pass builds the shift amount with getInt32 whatever the type
    of the multiply.  So, in a function with distinct identities in which
    no multiply of the rewrite class has a Constant first operand, the
    BinaryOperators of the result all have constant operands of their own
    type exactly when those the pass did not rewrite had, and every
    rewritten multiply was of type i32: for any other width the new shl
    pairs a value of that width with an i32 constant. *)
Theorem X6_shift_typed_only_for_i32 (F : Function) :
  uniqueIds F = true -> noFoldSite F = true ->
  (forall J', J' ∈ concat (fn (run F)) -> typedBinary J' = true) <->
  (forall J, J ∈ concat F ->
     if isRewriteSite J then instType J = 32 else typedBinary J = true).
Proof.
  intros HU HN. destruct (run_rewriteWith F HU HN) as (s & -> & _ & _).
  assert (Hkey : forall J, J ∈ concat F ->
            typedBinary (rewriteWith s J) = true <->
            if isRewriteSite J then instType J = 32 else typedBinary J = true).
  { intros J (b & i & HJ)%elem_of_function.
    destruct (isRewriteSite J) eqn:Hs.
    - pose proof Hs as (m & ty & lhs & w & c & -> & Hp)%isRewriteSite_inv.
      pose proof (proj1 (noFoldSite_spec F) HN _ _ _ HJ) as Hf.
      assert (Hl : typedOperand ty (renameValue s lhs) = true).
      { simpl in Hf. rewrite Hp in Hf. by destruct lhs. }
      simpl. rewrite Hp. simpl. rewrite Hl. simpl.
      apply (typedOperand_getInt32 ty (exactLogBase2 c)).
    - rewrite rewriteWith_other by done. by rewrite typedBinary_renameInst. }
  split.
  - intros H J HJ. apply Hkey; [done|]. apply H.
    apply elem_of_mapFunction. eauto.
  - intros H J' (J & HJ & ->)%elem_of_mapFunction.
    apply Hkey; [done|]. by apply H.
Qed.

Lemma X6_witness :
  uniqueIds wideBody = true /\ noFoldSite wideBody = true /\
  ~ (forall J', J' ∈ concat (fn (run wideBody)) -> typedBinary J' = true).
Proof.
  split; [reflexivity|]. split; [reflexivity|].
  intros H.
  pose proof (proj1 (X6_shift_typed_only_for_i32 wideBody eq_refl eq_refl) H
                (BinaryOperator 0 Mul 64 (VArg 0) (CI 64 8))) as H'.
  assert (Hin : BinaryOperator 0 Mul 64 (VArg 0) (CI 64 8) ∈ concat wideBody).
  { apply list_elem_of_In. simpl. by left. }
  specialize (H' Hin). simpl in H'. discriminate H'.
Defined.

(** ** The printer and the pipeline *)

Lemma string_app_assoc' (a b c : string) : (a +:+ b) +:+ c = a +:+ b +:+ c.
Proof.
  induction a as [|x a IH]; [reflexivity|].
  change (String x ((a +:+ b) +:+ c) = String x (a +:+ b +:+ c)). by f_equal.
Qed.

Lemma string_app_empty_r (a : string) : a +:+ EmptyString = a.
Proof.
  induction a as [|x a IH]; [reflexivity|].
  change (String x (a +:+ EmptyString) = String x a). by f_equal.
Qed.

Lemma Modified_run (F : Function) : Modified (run F) = hasSite F.
Proof.
  destruct (run_flag F) as [(-> & -> & _)|(-> & _ & ->)]; done.
Qed.

Lemma runPasses_pipeline (D : FunctionDef) (g : Globals) :
  hasOptNone D = false ->
  runPasses [MultiplicationShiftsPass; MultiplicationShiftsPrinterPass] D g =
    (mkFunctionDef false (fn (run (blocks D))),
     (if hasSite (blocks D) then PreservedFunctionSet else PreservedAll),
     mkGlobals (hasSite (blocks D)) (errsStream g +:+ report (blocks D))).
Proof.
  destruct D as [o F]. simpl. intros ->.
  unfold runPasses, report. simpl. rewrite Modified_run.
  by destruct (hasSite F).
Qed.

Lemma runPasses_optnone (D : FunctionDef) (g : Globals) :
  hasOptNone D = true ->
  runPasses [MultiplicationShiftsPass; MultiplicationShiftsPrinterPass] D g =
    (D, PreservedAll, g).
Proof.
  destruct D as [o F]. simpl. by intros ->.
Qed.

(** X7: the two passes are run over the functions of a module as the
    plugin registers them at the start of the pipeline.  None of the two
    is a required pass: a function with the attribute optnone, and a
    declaration, is left as it is and nothing is written for it.  Every
    other function is rewritten, and the printer writes for it the banner
    followed by "Some instruction was replaced." if it held a multiply of
    the rewrite class and "Nothing changed." if not; what the static flag
    held before, or what an earlier function left in it, has no effect on
    what is written. *)
Theorem X7_printer_reports_each_function (M : list FunctionDef)
    (g : Globals) :
  (runOnModule pipelineStartManager M g).1 = map rewritten M /\
  errsStream (runOnModule pipelineStartManager M g).2 =
    errsStream g +:+ reports M /\
  (forall k D, M !! k = Some D ->
     (runOnModule pipelineStartManager M g).1 !! k =
       Some (if isDeclaration D || hasOptNone D then D
             else mkFunctionDef false (fn (run (blocks D))))).
Proof.
  assert (G : forall M g,
    (runOnModule pipelineStartManager M g).1 = map rewritten M /\
    errsStream (runOnModule pipelineStartManager M g).2 =
      errsStream g +:+ reports M).
  { clear M g. intros M. induction M as [|D M IH]; intros g.
    - simpl. by rewrite string_app_empty_r.
    - change pipelineStartManager
        with [MultiplicationShiftsPass; MultiplicationShiftsPrinterPass] in *.
      cbn [runOnModule map reports]. unfold rewritten at 1, optimised.
      destruct (isDeclaration D) eqn:HD.
      + specialize (IH g). destruct (runOnModule _ M g) as [rest' g2].
        simpl in *. destruct IH as [-> ->]. done.
      + destruct (hasOptNone D) eqn:HO.
        * rewrite (runPasses_optnone D g HO).
          specialize (IH g). destruct (runOnModule _ M g) as [rest' g2].
          simpl in *. destruct IH as [-> ->]. done.
        * rewrite (runPasses_pipeline D g HO).
          specialize (IH (mkGlobals (hasSite (blocks D))
                            (errsStream g +:+ report (blocks D)))).
          destruct (runOnModule _ M _) as [rest' g2]. simpl in *.
          destruct IH as [-> ->]. split; [done|].
          by rewrite string_app_assoc'. }
  destruct (G M g) as [H1 H2]. split; [done|]. split; [done|].
  intros k D Hk. rewrite H1, list_lookup_fmap, Hk. simpl.
  unfold rewritten, optimised.
  destruct (isDeclaration D), (hasOptNone D) eqn:HO; simpl; try done.
Qed.

(** On the module of the tutorial, emitted with -disable-O0-optnone, the
    first function is rewritten. *)
Lemma X7_witness :
  tutorialModule !! 0%nat = Some (mkFunctionDef false tutorialBody) /\
  (runOnModule pipelineStartManager tutorialModule
     (mkGlobals false EmptyString)).1 !! 0%nat =
    Some (mkFunctionDef false (fn (run tutorialBody))) /\
  errsStream (runOnModule pipelineStartManager tutorialModule
                (mkGlobals false EmptyString)).2 =
    (banner +:+ replacedMessage) +:+ (banner +:+ unchangedMessage).
Proof.
  split; [reflexivity|].
  destruct (X7_printer_reports_each_function tutorialModule
              (mkGlobals false EmptyString)) as (_ & H2 & H3).
  split.
  - exact (H3 0%nat _ eq_refl).
  - rewrite H2. reflexivity.
Defined.

(** Emitted without that flag the function has the attribute optnone:
    running the passes changes nothing and prints nothing. *)
Example optnone_module_untouched (g : Globals) :
  runOnModule pipelineStartManager optnoneModule g = (optnoneModule, g).
Proof. reflexivity. Qed.

(** X8: the pipeline-parsing callback accepts the name
    "multiplication-shifts" and no other, and leaves the manager alone
    when it refuses.  The manager it builds holds the transformation then
    the printer, and no required pass.  On a function with the attribute
    optnone it runs neither: the function, the static flag and errs() are
    as they were, and all the analyses are preserved.  On any other
    function it returns the rewritten function, reports all the analyses
    preserved exactly when the function is returned unchanged, leaves in
    the static flag whether the function held a multiply of the rewrite
    class, and appends that function's report to errs(). *)
Theorem X8_registered_pipeline (Name : string) (FPM : list FunctionPass)
    (D : FunctionDef) (g : Globals) :
  ((pipelineParsingCallback Name FPM).1 = true <->
   Name = "multiplication-shifts") /\
  ((pipelineParsingCallback Name FPM).1 = false ->
   (pipelineParsingCallback Name FPM).2 = FPM) /\
  (hasOptNone D = true ->
   runPasses (pipelineParsingCallback "multiplication-shifts" []).2 D g =
     (D, PreservedAll, g)) /\
  (hasOptNone D = false ->
   let '(D', pa, g') :=
     runPasses (pipelineParsingCallback "multiplication-shifts" []).2 D g in
   D' = mkFunctionDef false (fn (run (blocks D))) /\
   (pa = PreservedAll <-> D' = D) /\
   pa = (if hasSite (blocks D) then PreservedFunctionSet else PreservedAll) /\
   ModifiedFlag g' = hasSite (blocks D) /\
   errsStream g' = errsStream g +:+ report (blocks D)).
Proof.
  split; [|split; [|split]].
  - unfold pipelineParsingCallback.
    destruct (String.eqb_spec Name "multiplication-shifts") as [->|Hne];
      simpl; [done|]. split; [done|]. intros ->. done.
  - unfold pipelineParsingCallback.
    by destruct (String.eqb Name "multiplication-shifts").
  - intros HO.
    change (pipelineParsingCallback "multiplication-shifts" []).2
      with [MultiplicationShiftsPass; MultiplicationShiftsPrinterPass].
    by apply runPasses_optnone.
  - intros HO.
    change (pipelineParsingCallback "multiplication-shifts" []).2
      with [MultiplicationShiftsPass; MultiplicationShiftsPrinterPass].
    rewrite (runPasses_pipeline D g HO). split; [done|].
    split; [|split; [done|split; done]].
    destruct D as [o F]. simpl in *. subst o.
    destruct (run_flag F) as [(HM & HS & Hc)|(HM & HF & HS)]; rewrite HS.
    + split; [done|]. intros E. injection E as E. rewrite E in Hc. lia.
    + split; [|done]. intros _. by rewrite HF.
Qed.

(** The tutorial's function is left alone when it has the attribute
    optnone, and rewritten and reported when it has not. *)
Lemma X8_witness :
  hasOptNone (mkFunctionDef true tutorialBody) = true /\
  hasOptNone (mkFunctionDef false tutorialBody) = false /\
  runPasses (pipelineParsingCallback "multiplication-shifts" []).2
    (mkFunctionDef true tutorialBody) (mkGlobals false EmptyString) =
    (mkFunctionDef true tutorialBody, PreservedAll,
     mkGlobals false EmptyString) /\
  let '(D', pa, g') :=
    runPasses (pipelineParsingCallback "multiplication-shifts" []).2
      (mkFunctionDef false tutorialBody) (mkGlobals false EmptyString) in
  D' = mkFunctionDef false (fn (run tutorialBody)) /\
  pa = PreservedFunctionSet /\
  errsStream g' = banner +:+ replacedMessage.
Proof.
  split; [reflexivity|]. split; [reflexivity|]. split.
  - exact (proj1 (proj2 (proj2 (X8_registered_pipeline EmptyString []
             (mkFunctionDef true tutorialBody) (mkGlobals false EmptyString))))
             eq_refl).
  - pose proof (proj2 (proj2 (proj2 (X8_registered_pipeline EmptyString []
             (mkFunctionDef false tutorialBody) (mkGlobals false EmptyString))))
             eq_refl) as H.
    destruct (runPasses _ _ _) as [[D' pa] g'].
    destruct H as (H1 & _ & H3 & _ & H5). split; [exact H1|]. split.
    + exact H3.
    + exact H5.
Defined.

(** ** test_hello.c: findMax *)

Lemma findMax_loop_spec (fuel : nat) (arr : list Z) (size i max : Z) :
  1 <= i -> size <= Z.of_nat (length arr) -> size - i <= Z.of_nat fuel ->
  exists m,
    findMax_loop fuel arr size i max = Returns m /\
    max <= m /\
    (m = max \/ exists j, i <= Z.of_nat j < size /\ arr !! j = Some m) /\
    (forall j x, i <= Z.of_nat j < size -> arr !! j = Some x -> x <= m).
Proof.
  revert i max. induction fuel as [|fuel IH]; intros i max Hi Hs Hf.
  - simpl. destruct (Z.ltb_spec i size) as [Hlt|Hge]; [lia|].
    exists max. repeat split; [lia|by left|]. intros j x Hj. lia.
  - simpl. destruct (Z.ltb_spec i size) as [Hlt|Hge].
    + destruct (lookup_lt_is_Some_2 arr (Z.to_nat i)) as [x Hx]; [lia|].
      rewrite Hx.
      destruct (IH (i + 1) (if x >? max then x else max)) as (m & -> & Hm & Hin & Hub);
        [lia|lia|lia|].
      assert (Hxm : x <= m /\ max <= m).
      { destruct (Z.gtb_spec x max); lia. }
      exists m. split; [done|]. split; [lia|]. split.
      * destruct Hin as [->|(j & Hj & Hjm)].
        -- destruct (Z.gtb_spec x max); [|by left].
           right. exists (Z.to_nat i). split; [lia|done].
        -- right. exists j. split; [lia|done].
      * intros j y Hj Hy.
        destruct (Z.eq_dec (Z.of_nat j) i) as [E|E].
        -- replace (Z.to_nat i) with j in Hx by lia.
           rewrite Hx in Hy. injection Hy as <-. lia.
        -- apply (Hub j y); [lia|done].
    + exists max. repeat split; [lia|by left|]. intros j x Hj. lia.
Qed.

(** X9: on an array of at least one and at least [size] elements findMax
    returns, given fuel for its size - 1 iterations, the greatest of the
    elements arr[0] .. arr[size-1]: the value returned is one of them and
    none of them is greater.  For size <= 1 that is arr[0]. *)
Theorem X9_findMax_is_maximum (fuel : nat) (arr : list Z) (size : Z) :
  (0 < length arr)%nat -> size <= Z.of_nat (length arr) ->
  size - 1 <= Z.of_nat fuel ->
  exists m,
    findMax fuel arr size = Returns m /\
    (exists j, (j = 0%nat \/ Z.of_nat j < size) /\ arr !! j = Some m) /\
    (forall j x, (j = 0%nat \/ Z.of_nat j < size) -> arr !! j = Some x ->
       x <= m).
Proof.
  intros Hne Hs Hf. unfold findMax.
  destruct (lookup_lt_is_Some_2 arr 0%nat Hne) as [a0 H0]. rewrite H0.
  destruct (findMax_loop_spec fuel arr size 1 a0) as (m & -> & Hm & Hin & Hub);
    [lia|done|lia|].
  exists m. split; [done|]. split.
  - destruct Hin as [->|(j & Hj & Hjm)].
    + exists 0%nat. split; [by left|done].
    + exists j. split; [right; lia|done].
  - intros j x [->|Hj] Hx.
    + rewrite H0 in Hx. injection Hx as <-. done.
    + destruct j as [|j].
      * rewrite H0 in Hx. injection Hx as <-. done.
      * apply (Hub (S j) x); [lia|done].
Qed.

Lemma X9_witness :
  (0 < length [4; 7; 1; 8; 5; 9])%nat /\
  6 <= Z.of_nat (length [4; 7; 1; 8; 5; 9]) /\
  6 - 1 <= Z.of_nat 5 /\
  exists m, findMax 5 [4; 7; 1; 8; 5; 9] 6 = Returns m.
Proof.
  assert (H1 : (0 < length [4; 7; 1; 8; 5; 9])%nat) by (simpl; lia).
  assert (H2 : 6 <= Z.of_nat (length [4; 7; 1; 8; 5; 9])) by (simpl; lia).
  assert (H3 : 6 - 1 <= Z.of_nat 5) by (simpl; lia).
  split; [exact H1|]. split; [exact H2|]. split; [exact H3|].
  destruct (X9_findMax_is_maximum 5 [4; 7; 1; 8; 5; 9] 6 H1 H2 H3)
    as (m & Hm & _).
  exists m. exact Hm.
Defined.

Lemma findMax_loop_overrun (fuel : nat) (arr : list Z) (size i max : Z) :
  0 <= i <= Z.of_nat (length arr) -> Z.of_nat (length arr) < size ->
  size - i <= Z.of_nat fuel ->
  findMax_loop fuel arr size i max = ReadsOutOfBounds.
Proof.
  revert i max. induction fuel as [|fuel IH]; intros i max Hi Hs Hf.
  - lia.
  - simpl. destruct (Z.ltb_spec i size) as [_|Hge]; [|lia].
    destruct (arr !! Z.to_nat i) as [x|] eqn:Hx; [|done].
    apply lookup_lt_Some in Hx. apply IH; lia.
Qed.

(** X10: findMax reads arr[0] before it looks at [size], and then
    arr[1] .. arr[size-1].  Given fuel for its iterations, it reads past
    the end of the array exactly when the array is empty (even if size is
    0) or has fewer than [size] elements. *)
Theorem X10_findMax_out_of_bounds (fuel : nat) (arr : list Z) (size : Z) :
  size - 1 <= Z.of_nat fuel ->
  findMax fuel arr size = ReadsOutOfBounds <->
  arr = [] \/ Z.of_nat (length arr) < size.
Proof.
  intros Hf. split.
  - intros H. destruct arr as [|a0 arr]; [by left|right].
    destruct (Z_lt_le_dec (Z.of_nat (length (a0 :: arr))) size) as [|Hle];
      [done|exfalso].
    change (findMax_loop fuel (a0 :: arr) size 1 a0 = ReadsOutOfBounds) in H.
    destruct (findMax_loop_spec fuel (a0 :: arr) size 1 a0)
      as (m & Hm & _); [lia|done|lia|].
    rewrite Hm in H. discriminate H.
  - intros [->|Hlt]; [done|].
    destruct arr as [|a0 arr]; [done|].
    change (findMax_loop fuel (a0 :: arr) size 1 a0 = ReadsOutOfBounds).
    apply findMax_loop_overrun; [simpl; lia|done|lia].
Qed.

Lemma X10_witness :
  0 - 1 <= Z.of_nat 0 /\ findMax 0 [] 0 = ReadsOutOfBounds.
Proof.
  assert (H : 0 - 1 <= Z.of_nat 0) by (simpl; lia).
  split; [exact H|].
  exact (proj2 (X10_findMax_out_of_bounds 0 [] 0 H) (or_introl eq_refl)).
Defined.
